(** * LoveStat backend: the chat aggregation pass and the statistics queries

    A shallow embedding of [analyzeChat] (chatParser.js) and of the two
    statistics routes of server.js, with the properties of the monthly
    roll-ups proved over it.

    JavaScript strings are sequences of UTF-16 code units, objects keep
    their own keys in the order of the language (array indices first,
    ascending, then the other string keys in creation order), and counters
    are naturals (every counter starts at 0 and grows by additions, far
    below 2^53). *)

From Stdlib Require Import List NArith ZArith Bool Lia.
From Stdlib Require String Ascii.
Import String.StringSyntax.
Delimit Scope string_scope with string.
From Stdlib Require Import Permutation Sorted.
Import ListNotations.

Set Implicit Arguments.

(* ===================================================================== *)
(** * JavaScript strings *)
(* ===================================================================== *)

Module JsString.

(** A string value: its UTF-16 code units. *)
Definition jsstring := list N.

Definition eqb (a b : jsstring) : bool :=
  if list_eq_dec N.eq_dec a b then true else false.

(** ** Literals

    Literals of this file are written as UTF-8 text and decoded to code
    units: [utf8_code_points] reads the bytes, [utf16_encode] writes a code
    point above U+FFFF as a surrogate pair. *)

Definition cont (b : N) : N := N.land b 63.

Fixpoint utf8_code_points (bs : list N) : list N :=
  match bs with
  | [] => []
  | b0 :: t0 =>
    if b0 <? 128 then b0 :: utf8_code_points t0
    else match t0 with
    | [] => []
    | b1 :: t1 =>
      if b0 <? 224 then
        (N.land b0 31 * 64 + cont b1) :: utf8_code_points t1
      else match t1 with
      | [] => []
      | b2 :: t2 =>
        if b0 <? 240 then
          (N.land b0 15 * 4096 + cont b1 * 64 + cont b2) :: utf8_code_points t2
        else match t2 with
        | [] => []
        | b3 :: t3 =>
          (N.land b0 7 * 262144 + cont b1 * 4096 + cont b2 * 64 + cont b3)
            :: utf8_code_points t3
        end
      end
    end
  end%N.

Definition utf16_encode (cp : N) : list N :=
  (if cp <? 65536 then [cp]
   else [55296 + (cp - 65536) / 1024; 56320 + (cp - 65536) mod 1024])%N.

Definition utf16 (s : String.string) : jsstring :=
  flat_map utf16_encode
    (utf8_code_points (map Ascii.N_of_ascii (String.list_ascii_of_string s))).

Arguments utf16 s%_string.

End JsString.

Import JsString.

(* ===================================================================== *)
(** * JavaScript objects used as maps *)
(* ===================================================================== *)

Module JsObject.

Definition isDigit (c : N) : bool := ((48 <=? c) && (c <=? 57))%N.

Definition digitsValue (s : jsstring) : N :=
  fold_left (fun acc c => acc * 10 + (c - 48))%N s 0%N.

(** [arrayIndex s] is [Some i] when [s] is the canonical decimal text of an
    integer [0 <= i < 2^32 - 1]: such keys are the array indices, which an
    object lists before its other keys. *)
Definition arrayIndex (s : jsstring) : option N :=
  match s with
  | [] => None
  | c :: r =>
    if forallb isDigit s
       && (negb (c =? 48)%N || match r with [] => true | _ => false end)
       && (digitsValue s <? 4294967295)%N
    then Some (digitsValue s) else None
  end.

(** An object: its own properties in the order [Object.keys],
    [Object.values] and [Object.entries] list them. *)
Definition jsobj (V : Type) := list (jsstring * V).

Section Ops.
Variable V : Type.

Definition keys (o : jsobj V) : list jsstring := map fst o.
Definition values (o : jsobj V) : list V := map snd o.
Definition entries (o : jsobj V) : list (jsstring * V) := o.

(** [o[k]] for an own property; [None] is [undefined]. *)
Fixpoint get (k : jsstring) (o : jsobj V) : option V :=
  match o with
  | [] => None
  | (k', v) :: r => if eqb k k' then Some v else get k r
  end.

(** Assignment to a property that exists keeps its place. *)
Fixpoint replace (k : jsstring) (v : V) (o : jsobj V) : jsobj V :=
  match o with
  | [] => []
  | (k', v') :: r =>
    if eqb k k' then (k', v) :: r else (k', v') :: replace k v r
  end.

(** A new array-index key goes among the indices, in ascending order. *)
Fixpoint insertIndex (i : N) (k : jsstring) (v : V) (o : jsobj V) : jsobj V :=
  match o with
  | [] => [(k, v)]
  | (k', v') :: r =>
    match arrayIndex k' with
    | Some j => if (j <? i)%N then (k', v') :: insertIndex i k v r
                else (k, v) :: o
    | None => (k, v) :: o
    end
  end.

(** [o[k] = v]. *)
Definition set (k : jsstring) (v : V) (o : jsobj V) : jsobj V :=
  match get k o with
  | Some _ => replace k v o
  | None =>
    match arrayIndex k with
    | Some i => insertIndex i k v o
    | None => o ++ [(k, v)]
    end
  end.

(** In-place mutation of the object stored under [k]
    ([o[k].field = ...]); [k] is always present where the program does
    this, and an absent key leaves the map as it is. *)
Definition update (k : jsstring) (f : V -> V) (o : jsobj V) : jsobj V :=
  match get k o with
  | Some v => replace k (f v) o
  | None => o
  end.

End Ops.

End JsObject.

Import JsObject.

(* ===================================================================== *)
(** * Values of the parsed export *)
(* ===================================================================== *)

(** What [JSON.parse] yields, with [JUndefined] for a field that is absent.
    Numbers carry their integral value; only their truthiness is looked
    at by the program. *)
#[local] Unset Elimination Schemes.
Inductive jsval : Type :=
| JUndefined
| JNull
| JBool (b : bool)
| JNum (n : Z)
| JStr (s : jsstring)
| JArr (l : list jsval)
| JObj (l : list (jsstring * jsval)).
#[local] Set Elimination Schemes.

(** [ToBoolean]. *)
Definition truthy (v : jsval) : bool :=
  match v with
  | JUndefined | JNull => false
  | JBool b => b
  | JNum n => negb (n =? 0)%Z
  | JStr s => match s with [] => false | _ :: _ => true end
  | JArr _ | JObj _ => true
  end.

(** [v === s] for a string literal [s]. *)
Definition strictEqStr (v : jsval) (s : jsstring) : bool :=
  match v with
  | JStr t => eqb t s
  | _ => false
  end.

(** A number that may be [NaN]. *)
Inductive num : Type := NaN | Num (z : Z).

Definition numAdd (a : num) (z : Z) : num :=
  match a with
  | NaN => NaN
  | Num x => Num (x + z)
  end.

(** A [Date] object, as far as the program reads it: the calendar year and
    the zero-based month of its time value in the local time zone, or an
    invalid date. *)
Inductive Date : Type :=
| InvalidDate
| LocalDate (year : Z) (month : Z).

Definition getFullYear (d : Date) : num :=
  match d with
  | InvalidDate => NaN
  | LocalDate y _ => Num y
  end.

Definition getMonth (d : Date) : num :=
  match d with
  | InvalidDate => NaN
  | LocalDate _ m => Num m
  end.

(** What the program takes from its platform and from the emoji-regex
    package: the [Date] constructor (with the time zone of the process),
    [JSON.stringify], the successive matches of the emoji pattern in a
    text, and [String.prototype.localeCompare]. *)
Class Runtime : Type := {
  Date_new : jsval -> Date;
  JSON_stringify : jsval -> jsstring;
  emojiRegex_matches : jsstring -> list jsstring;
  localeCompare : jsstring -> jsstring -> Z
}.

(* ===================================================================== *)
(** * Text primitives *)
(* ===================================================================== *)

(** [String(n)] for the integers and [NaN] the program converts. *)
Fixpoint uintUnits (u : Decimal.uint) : jsstring :=
  match u with
  | Decimal.Nil => []
  | Decimal.D0 u => 48%N :: uintUnits u
  | Decimal.D1 u => 49%N :: uintUnits u
  | Decimal.D2 u => 50%N :: uintUnits u
  | Decimal.D3 u => 51%N :: uintUnits u
  | Decimal.D4 u => 52%N :: uintUnits u
  | Decimal.D5 u => 53%N :: uintUnits u
  | Decimal.D6 u => 54%N :: uintUnits u
  | Decimal.D7 u => 55%N :: uintUnits u
  | Decimal.D8 u => 56%N :: uintUnits u
  | Decimal.D9 u => 57%N :: uintUnits u
  end.

Definition String_of (n : num) : jsstring :=
  match n with
  | NaN => utf16 "NaN"
  | Num z =>
    match Z.to_int z with
    | Decimal.Pos u => uintUnits u
    | Decimal.Neg u => 45%N :: uintUnits u
    end
  end.

(** [s.padStart(n, c)] for a one-unit filler [c]. *)
Definition padStart (n : nat) (c : N) (s : jsstring) : jsstring :=
  repeat c (n - length s) ++ s.

(** [String.prototype.toLowerCase], on the Basic Latin and Cyrillic
    (U+0400..U+042F) capitals; the program lowers its four keywords only,
    which are written with these letters. *)
Definition toLowerUnit (c : N) : N :=
  (if (65 <=? c) && (c <=? 90) then c + 32
   else if (1040 <=? c) && (c <=? 1071) then c + 32
   else if (1024 <=? c) && (c <=? 1039) then c + 80
   else c)%N.

Definition toLowerCase (s : jsstring) : jsstring := map toLowerUnit s.

(** [Canonicalize] of a pattern with the [i] flag and without the [u]
    flag: the upper-case form of one code unit.  The table is that of the
    Basic Latin and Cyrillic letters (U+0430..U+045F, and U+1C80..U+1C86,
    whose capitals are in U+0410..U+042F); it gives the engine's answer on
    every unit whose canonical form is a unit of a keyword, and sends no
    other unit onto one, which is all a comparison with a keyword reads. *)
Definition Canonicalize (c : N) : N :=
  (if (97 <=? c) && (c <=? 122) then c - 32
   else if (1072 <=? c) && (c <=? 1103) then c - 32
   else if (1104 <=? c) && (c <=? 1119) then c - 80
   else if c =? 7296 then 1042
   else if c =? 7297 then 1044
   else if c =? 7298 then 1054
   else if c =? 7299 then 1057
   else if (c =? 7300) || (c =? 7301) then 1058
   else if c =? 7302 then 1066
   else c)%N.

(** Does the pattern, a sequence of literal characters, match at the head
    of [text]? *)
Fixpoint matchAt (pat text : jsstring) : bool :=
  match pat, text with
  | [], _ => true
  | _ :: _, [] => false
  | p :: pat', c :: text' =>
    (Canonicalize p =? Canonicalize c)%N && matchAt pat' text'
  end.

(** The number of matches [text.match(new RegExp(pat, "gi"))] collects:
    the scan goes left to right and resumes after each match; [skip] is
    the number of units of the last match still to pass over. *)
Fixpoint countFrom (pat : jsstring) (skip : nat) (text : jsstring) : N :=
  match text with
  | [] => 0
  | _ :: rest =>
    match skip with
    | S k => countFrom pat k rest
    | O =>
      if matchAt pat text
      then 1 + countFrom pat (length pat - 1) rest
      else countFrom pat 0 rest
    end
  end%N.

Definition countMatches (pat text : jsstring) : N := countFrom pat 0 text.

(** [Array.prototype.sort] with a comparator: a stable sort, in which an
    element stays before a later one unless the comparator is positive on
    them. *)
Section Sort.
Variable A : Type.
Variable cmp : A -> A -> Z.

Fixpoint sortInsert (x : A) (l : list A) : list A :=
  match l with
  | [] => [x]
  | y :: r => if (0 <? cmp x y)%Z then y :: sortInsert x r else x :: l
  end.

Fixpoint sort (l : list A) : list A :=
  match l with
  | [] => []
  | x :: r => sortInsert x (sort r)
  end.

End Sort.

(* ===================================================================== *)
(** * chatParser.js: the data *)
(* ===================================================================== *)

Module Message.
Record t : Type := {
  type : jsval;
  date : jsval;
  photo : jsval;
  media_type : jsval;
  photo_id : jsval;
  text : jsval
}.
End Message.

Module ChatData.
Record t : Type := {
  name : jsval;
  id : jsval;
  messages : list Message.t
}.
End ChatData.

Module EmojiCount.
Record t : Type := { emoji : jsstring; count : N }.
End EmojiCount.

Module NameValue.
Record t : Type := { name : jsstring; value : N }.
End NameValue.

Module MonthStat.
Record t : Type := {
  month : jsstring;
  messageCount : N;
  photoCount : N;
  keywords : jsobj N;
  emojis : jsobj N;
  topEmojis : list EmojiCount.t;
  (** absent until the second loop of [analyzeChat] writes them *)
  keywordsFormatted : option (list NameValue.t);
  emojisFormatted : option (list NameValue.t)
}.

Definition incrMessageCount (b : t) : t :=
  {| month := month b; messageCount := messageCount b + 1;
     photoCount := photoCount b; keywords := keywords b; emojis := emojis b;
     topEmojis := topEmojis b; keywordsFormatted := keywordsFormatted b;
     emojisFormatted := emojisFormatted b |}.

Definition incrPhotoCount (b : t) : t :=
  {| month := month b; messageCount := messageCount b;
     photoCount := photoCount b + 1; keywords := keywords b;
     emojis := emojis b; topEmojis := topEmojis b;
     keywordsFormatted := keywordsFormatted b;
     emojisFormatted := emojisFormatted b |}.

Definition withKeywords (o : jsobj N) (b : t) : t :=
  {| month := month b; messageCount := messageCount b;
     photoCount := photoCount b; keywords := o; emojis := emojis b;
     topEmojis := topEmojis b; keywordsFormatted := keywordsFormatted b;
     emojisFormatted := emojisFormatted b |}.

Definition withEmojis (o : jsobj N) (b : t) : t :=
  {| month := month b; messageCount := messageCount b;
     photoCount := photoCount b; keywords := keywords b; emojis := o;
     topEmojis := topEmojis b; keywordsFormatted := keywordsFormatted b;
     emojisFormatted := emojisFormatted b |}.
End MonthStat.

Module Analysis.
Record t : Type := {
  chatName : jsval;
  chatId : jsval;
  totalMessages : N;
  monthlyStats : jsobj MonthStat.t
}.
End Analysis.

(* ===================================================================== *)
(** * chatParser.js: [analyzeChat] *)
(* ===================================================================== *)

(** The keywords to look for.  None holds a syntax character of regular
    expressions, so [new RegExp(keyword, "gi")] matches the keyword's
    characters one by one, whatever their case. *)
Definition keywords : list jsstring :=
  [utf16 "Добраніч"; utf16 "Солодких"; utf16 "Доброго ранку"; utf16 "Скучив"].

(** [x || 0] on a count read from an object. *)
Definition orZero (x : option N) : N :=
  match x with
  | Some n => if (n =? 0)%N then 0%N else n
  | None => 0%N
  end.

(** The top-four step of the second loop: the entries of the emoji table,
    sorted by [b.count - a.count], cut after four. *)
Definition emojiArray (emojiCounts : jsobj N) : list EmojiCount.t :=
  sort (fun a b => Z.of_N (EmojiCount.count b) - Z.of_N (EmojiCount.count a))%Z
       (map (fun '(emoji, count) =>
               {| EmojiCount.emoji := emoji; EmojiCount.count := count |})
            (entries emojiCounts)).

Definition top4 (emojiCounts : jsobj N) : list EmojiCount.t :=
  firstn 4 (emojiArray emojiCounts).

Section AnalyzeChat.
Context {R : Runtime}.

(** The month key of a message, [`${year}-${month, two digits}`]. *)
Definition monthKeyOf (message : Message.t) : jsstring :=
  let messageDate := Date_new (Message.date message) in
  String_of (getFullYear messageDate) ++ utf16 "-"
    ++ padStart 2 48%N (String_of (numAdd (getMonth messageDate) 1)).

(** The record a month starts with. *)
Definition newMonth (monthKey : jsstring) : MonthStat.t :=
  {| MonthStat.month := monthKey;
     MonthStat.messageCount := 0;
     MonthStat.photoCount := 0;
     MonthStat.keywords :=
       fold_left (fun obj keyword => set (toLowerCase keyword) 0%N obj)
                 keywords [];
     MonthStat.emojis := [];
     MonthStat.topEmojis := [];
     MonthStat.keywordsFormatted := None;
     MonthStat.emojisFormatted := None |}.

(** The photo test of the first loop. *)
Definition isPhoto (message : Message.t) : bool :=
  truthy (Message.photo message)
  || (truthy (Message.media_type message)
      && strictEqStr (Message.media_type message) (utf16 "photo"))
  || truthy (Message.photo_id message).

(** [keywords.forEach]: each keyword found adds its number of matches to
    the count kept under its lower-case form (a key every month has had
    since [newMonth]). *)
Definition countKeywords (messageText : jsstring) (b : MonthStat.t)
  : MonthStat.t :=
  fold_left
    (fun b keyword =>
       let matches := countMatches keyword messageText in
       if (0 <? matches)%N
       then MonthStat.withKeywords
              (update (toLowerCase keyword) (fun c => c + matches)%N
                      (MonthStat.keywords b)) b
       else b)
    keywords b.

(** The [while] loop over the matches of the emoji pattern. *)
Definition countEmojis (found : list jsstring) (b : MonthStat.t)
  : MonthStat.t :=
  fold_left
    (fun b emoji =>
       MonthStat.withEmojis
         (set emoji (orZero (get emoji (MonthStat.emojis b)) + 1)%N
              (MonthStat.emojis b)) b)
    found b.

Definition messageTextOf (text : jsval) : jsstring :=
  match text with
  | JStr s => s
  | v => JSON_stringify v
  end.

(** What one message of type "message" does to the record of its month:
    the body of the first loop after the record is looked up.  Every write
    goes through [monthlyStats[monthKey]], one and the same record. *)
Definition accumulate (message : Message.t) (b : MonthStat.t) : MonthStat.t :=
  let b := MonthStat.incrMessageCount b in
  let b := if isPhoto message then MonthStat.incrPhotoCount b else b in
  if truthy (Message.text message) then
    let messageText := messageTextOf (Message.text message) in
    let b := countKeywords messageText b in
    countEmojis (emojiRegex_matches messageText) b
  else b.

(** The body of [chatData.messages.forEach]. *)
Definition processMessage (monthlyStats : jsobj MonthStat.t)
    (message : Message.t) : jsobj MonthStat.t :=
  if negb (strictEqStr (Message.type message) (utf16 "message"))
  then monthlyStats
  else
    let monthKey := monthKeyOf message in
    let monthlyStats :=
      match get monthKey monthlyStats with
      | Some _ => monthlyStats
      | None => set monthKey (newMonth monthKey) monthlyStats
      end in
    update monthKey (accumulate message) monthlyStats.

(** The body of the second loop, for the record of one month. *)
Definition finalizeMonth (b : MonthStat.t) : MonthStat.t :=
  let emojiCounts := MonthStat.emojis b in
  let top := top4 emojiCounts in
  {| MonthStat.month := MonthStat.month b;
     MonthStat.messageCount := MonthStat.messageCount b;
     MonthStat.photoCount := MonthStat.photoCount b;
     MonthStat.keywords := MonthStat.keywords b;
     MonthStat.emojis := MonthStat.emojis b;
     MonthStat.topEmojis := top;
     MonthStat.keywordsFormatted :=
       Some (map (fun '(keyword, count) =>
                    {| NameValue.name := keyword; NameValue.value := count |})
                 (entries (MonthStat.keywords b)));
     MonthStat.emojisFormatted :=
       Some (map (fun item =>
                    {| NameValue.name := EmojiCount.emoji item;
                       NameValue.value := EmojiCount.count item |})
                 top) |}.

Definition firstLoop (messages : list Message.t) : jsobj MonthStat.t :=
  fold_left processMessage messages [].

Definition secondLoop (monthlyStats : jsobj MonthStat.t)
  : jsobj MonthStat.t :=
  fold_left (fun ms monthKey => update monthKey finalizeMonth ms)
            (keys monthlyStats) monthlyStats.

Definition analyzeChat (chatData : ChatData.t) : Analysis.t :=
  let monthlyStats := firstLoop (ChatData.messages chatData) in
  let monthlyStats := secondLoop monthlyStats in
  {| Analysis.chatName := ChatData.name chatData;
     Analysis.chatId := ChatData.id chatData;
     Analysis.totalMessages := N.of_nat (length (ChatData.messages chatData));
     Analysis.monthlyStats := monthlyStats |}.

End AnalyzeChat.

(* ===================================================================== *)
(** * server.js: the statistics queries *)
(* ===================================================================== *)

Module Server.

(** The stored documents ([MonthlyStatSchema], [ChatAnalysisSchema]); the
    [lastUpdated] stamp is not read by the queries. *)
Module MonthlyStat.
Record t : Type := {
  month : jsstring;
  messageCount : N;
  photoCount : N;
  keywords : jsobj N;
  keywordsFormatted : list NameValue.t;
  emojisFormatted : list NameValue.t
}.
End MonthlyStat.

Module ChatAnalysis.
Record t : Type := {
  chatName : jsval;
  chatId : jsval;
  totalMessages : N;
  monthlyStats : list MonthlyStat.t
}.
End ChatAnalysis.

(** The outcome of [await ChatAnalysis.findOne({})]: the promise is
    rejected, or resolves to [null] or to the stored document. *)
Inductive findOne : Type :=
| Rejected
| Resolved (analysis : option ChatAnalysis.t).

Inductive body : Type :=
| ErrorBody (error : String.string)
| YearBody (monthlyData : list (jsstring * N))
| MonthBody (month : jsstring) (totalMessages : N)
            (keywords emojis : jsobj N) (memeCount : N).

Arguments ErrorBody error%_string.

Record response : Type := { status : N; json : body }.

(** [/^\d{4}$/.test(year)] *)
Definition testYear (year : jsstring) : bool :=
  match year with
  | [a; b; c; d] => isDigit a && isDigit b && isDigit c && isDigit d
  | _ => false
  end.

(** [/^\d{4}-\d{2}$/.test(monthKey)] *)
Definition testMonthKey (monthKey : jsstring) : bool :=
  match monthKey with
  | [a; b; c; d; h; e; f] =>
    isDigit a && isDigit b && isDigit c && isDigit d && (h =? 45)%N
    && isDigit e && isDigit f
  | _ => false
  end.

Fixpoint startsWith (s prefix : jsstring) : bool :=
  match prefix, s with
  | [], _ => true
  | _ :: _, [] => false
  | p :: prefix', c :: s' => (p =? c)%N && startsWith s' prefix'
  end.

Definition toObject (l : list NameValue.t) : jsobj N :=
  fold_left (fun obj item => set (NameValue.name item) (NameValue.value item) obj)
            l [].

Section Routes.
Context {R : Runtime}.

(** GET /api/statistics/year/:year *)
Definition getYear (year : jsstring) (db : findOne) : response :=
  if negb (testYear year)
  then {| status := 400; json := ErrorBody "Invalid year format" |}
  else
    match db with
    | Rejected => {| status := 500; json := ErrorBody "Server error" |}
    | Resolved None =>
      {| status := 404; json := ErrorBody "No chat analysis data found" |}
    | Resolved (Some analysis) =>
      let yearPrefix := year ++ utf16 "-" in
      let monthlyData :=
        sort (fun a b => localeCompare (fst a) (fst b))
             (map (fun stat => (MonthlyStat.month stat,
                                MonthlyStat.messageCount stat))
                  (filter (fun stat =>
                             startsWith (MonthlyStat.month stat) yearPrefix)
                          (ChatAnalysis.monthlyStats analysis))) in
      {| status := 200; json := YearBody monthlyData |}
    end.

(** GET /api/statistics/:monthKey *)
Definition getMonthKey (monthKey : jsstring) (db : findOne) : response :=
  if negb (testMonthKey monthKey)
  then {| status := 400;
          json := ErrorBody "Invalid month format. Use YYYY-MM" |}
  else
    match db with
    | Rejected => {| status := 500; json := ErrorBody "Server error" |}
    | Resolved None =>
      {| status := 404; json := ErrorBody "No chat analysis data found" |}
    | Resolved (Some analysis) =>
      match find (fun stat => eqb (MonthlyStat.month stat) monthKey)
                 (ChatAnalysis.monthlyStats analysis) with
      | None =>
        {| status := 404;
           json := ErrorBody "No data found for the specified month" |}
      | Some monthData =>
        {| status := 200;
           json := MonthBody (MonthlyStat.month monthData)
                     (MonthlyStat.messageCount monthData)
                     (toObject (MonthlyStat.keywordsFormatted monthData))
                     (toObject (MonthlyStat.emojisFormatted monthData))
                     (orZero (Some (MonthlyStat.photoCount monthData))) |}
      end
    end.

End Routes.

(** The outcomes the queries are specified with. *)
Definition InvalidFormat (r : response) : Prop := status r = 400%N.
Definition NotFound (r : response) : Prop := status r = 404%N.
Definition Success (r : response) : Prop := status r = 200%N.

End Server.

(* ===================================================================== *)
(** * A small runtime for the examples *)
(* ===================================================================== *)

(** The general results below hold for every [Runtime].  The examples are
    run on this one: it reads the local date-times of the exports
    ("YYYY-MM-DDTHH:MM:SS", which name their own calendar month in every
    time zone) and takes every other value for an invalid date; it finds
    the emoji of the blocks U+1F000..U+1FBFF, one per code point; it
    writes compact JSON; it compares strings unit by unit. *)
Module ExampleRuntime.

Definition digit (c : N) : Z := Z.of_N c - 48.

Definition daysInMonth (y m : Z) : Z :=
  (if m =? 2 then
     if ((y mod 4 =? 0) && negb (y mod 100 =? 0)) || (y mod 400 =? 0)
     then 29 else 28
   else if (m =? 4) || (m =? 6) || (m =? 9) || (m =? 11) then 30 else 31)%Z.

Definition Date_new (v : jsval) : Date :=
  match v with
  | JStr [y1; y2; y3; y4; h1; m1; m2; h2; d1; d2; t;
          H1; H2; c1; M1; M2; c2; S1; S2] =>
    let y := (digit y1 * 1000 + digit y2 * 100 + digit y3 * 10 + digit y4)%Z in
    let m := (digit m1 * 10 + digit m2)%Z in
    let d := (digit d1 * 10 + digit d2)%Z in
    if forallb isDigit [y1; y2; y3; y4; m1; m2; d1; d2; H1; H2; M1; M2; S1; S2]
       && (h1 =? 45)%N && (h2 =? 45)%N && (t =? 84)%N
       && (c1 =? 58)%N && (c2 =? 58)%N
       && (1 <=? m)%Z && (m <=? 12)%Z && (1 <=? d)%Z && (d <=? daysInMonth y m)%Z
       && (digit H1 * 10 + digit H2 <=? 23)%Z
       && (digit M1 * 10 + digit M2 <=? 59)%Z
       && (digit S1 * 10 + digit S2 <=? 59)%Z
    then LocalDate y (m - 1) else InvalidDate
  | _ => InvalidDate
  end.

Definition quote (s : jsstring) : jsstring :=
  34%N :: flat_map (fun c => if (c =? 34)%N then [92; 34]%N
                             else if (c =? 92)%N then [92; 92]%N
                             else [c]) s ++ [34%N].

Fixpoint JSON_stringify (v : jsval) : jsstring :=
  match v with
  | JUndefined | JNull => utf16 "null"
  | JBool true => utf16 "true"
  | JBool false => utf16 "false"
  | JNum n => String_of (Num n)
  | JStr s => quote s
  | JArr l =>
    utf16 "["
    ++ (fix items (l : list jsval) : jsstring :=
          match l with
          | [] => []
          | [x] => JSON_stringify x
          | x :: r => JSON_stringify x ++ utf16 "," ++ items r
          end) l
    ++ utf16 "]"
  | JObj l =>
    utf16 "{"
    ++ (fix props (l : list (jsstring * jsval)) : jsstring :=
          match l with
          | [] => []
          | [(k, x)] => quote k ++ utf16 ":" ++ JSON_stringify x
          | (k, x) :: r =>
            quote k ++ utf16 ":" ++ JSON_stringify x ++ utf16 "," ++ props r
          end) l
    ++ utf16 "}"
  end.

Fixpoint emojiRegex_matches (text : jsstring) : list jsstring :=
  match text with
  | [] => []
  | hi :: rest =>
    match rest with
    | lo :: _ =>
      if (55356 <=? hi)%N && (hi <=? 55358)%N
         && (56320 <=? lo)%N && (lo <=? 57343)%N
      then [hi; lo] :: emojiRegex_matches rest
      else emojiRegex_matches rest
    | [] => []
    end
  end.

Fixpoint localeCompare (a b : jsstring) : Z :=
  match a, b with
  | [], [] => 0
  | [], _ :: _ => -1
  | _ :: _, [] => 1
  | x :: a', y :: b' =>
    if (x <? y)%N then -1 else if (y <? x)%N then 1 else localeCompare a' b'
  end%Z.

End ExampleRuntime.

Definition exampleRuntime : Runtime :=
  {| Date_new := ExampleRuntime.Date_new;
     JSON_stringify := ExampleRuntime.JSON_stringify;
     emojiRegex_matches := ExampleRuntime.emojiRegex_matches;
     localeCompare := ExampleRuntime.localeCompare |}.

Definition plainMessage (date text : jsval) : Message.t :=
  {| Message.type := JStr (utf16 "message"); Message.date := date;
     Message.photo := JUndefined; Message.media_type := JUndefined;
     Message.photo_id := JUndefined; Message.text := text |}.

Definition exportOf (messages : list Message.t) : ChatData.t :=
  {| ChatData.name := JNull; ChatData.id := JNum 1;
     ChatData.messages := messages |}.

(* ===================================================================== *)
(** * Vocabulary of the properties *)
(* ===================================================================== *)

(** The entries of the export that take part: those of type "message". *)
Definition isMessage (m : Message.t) : bool :=
  strictEqStr (Message.type m) (utf16 "message").

(** The [date] field is parseable when [new Date] gives a valid date. *)
Definition dateParseable {R : Runtime} (m : Message.t) : bool :=
  match Date_new (Message.date m) with
  | InvalidDate => false
  | LocalDate _ _ => true
  end.

Definition countWhere (P : Message.t -> bool) (messages : list Message.t) : N :=
  N.of_nat (length (filter P messages)).

(** The sum of [messageCount] over the buckets whose key satisfies [P]. *)
Definition sumMessageCount (P : jsstring -> bool) (ms : jsobj MonthStat.t) : N :=
  fold_right N.add 0%N
    (map (fun kv => MonthStat.messageCount (snd kv))
         (filter (fun kv => P (fst kv)) ms)).

Definition anyKey (k : jsstring) : bool := true.

(** The messages the first loop files under the month key [k], in the
    order of the export. *)
Definition messagesOf {R : Runtime} (k : jsstring) (messages : list Message.t)
  : list Message.t :=
  filter (fun m => isMessage m && eqb (monthKeyOf m) k) messages.

Definition accumulateAll {R : Runtime} (messages : list Message.t)
    (b : MonthStat.t) : MonthStat.t :=
  fold_left (fun b m => accumulate m b) messages b.

(** The distinct elements of a sequence, in the order of their first
    occurrence. *)
Fixpoint firstSeen (es : list jsstring) : list jsstring :=
  match es with
  | [] => []
  | e :: r => e :: filter (fun x => negb (eqb x e)) (firstSeen r)
  end.

(** The emoji table after the [while] loop, from the table before it. *)
Definition bumpAll (es : list jsstring) (tbl : jsobj N) : jsobj N :=
  fold_left (fun tbl e => set e (orZero (get e tbl) + 1)%N tbl) es tbl.

(** The emoji occurrences a message contributes. *)
Definition emojisOf {R : Runtime} (m : Message.t) : list jsstring :=
  if truthy (Message.text m)
  then emojiRegex_matches (messageTextOf (Message.text m))
  else [].

(** The emoji occurrences of a month, in the order of the pass. *)
Definition emojisFound {R : Runtime} (k : jsstring) (messages : list Message.t)
  : list jsstring :=
  flat_map emojisOf (messagesOf k messages).

(** The record a message is accumulated into: the one its month has, or a
    new one. *)
Definition recordOr (k : jsstring) (ms : jsobj MonthStat.t) : MonthStat.t :=
  match get k ms with
  | Some b => b
  | None => newMonth k
  end.

(** The keys other than the one of the invalid dates. *)
Definition validKey (k : jsstring) : bool := negb (eqb k (utf16 "NaN-NaN")).

(** The three photo indicators: [photo] or [photo_id] truthy, or
    [media_type] equal to "photo". *)
Definition signalsPhoto (m : Message.t) : bool :=
  truthy (Message.photo m)
  || strictEqStr (Message.media_type m) (utf16 "photo")
  || truthy (Message.photo_id m).

(** Two runs may differ by their platform only (time zone, emoji
    pattern).  [agreeOn R1 R2 m] says that the two platforms answer alike
    on what the pass asks about the message [m]. *)
Definition agreeOn (R1 R2 : Runtime) (m : Message.t) : Prop :=
  @Date_new R1 (Message.date m) = @Date_new R2 (Message.date m)
  /\ @messageTextOf R1 (Message.text m) = @messageTextOf R2 (Message.text m)
  /\ @emojiRegex_matches R1 (@messageTextOf R1 (Message.text m))
     = @emojiRegex_matches R2 (@messageTextOf R1 (Message.text m)).

(** The comparator of the second loop, [b.count - a.count], and the order
    it sorts into. *)
Definition byCount (a b : EmojiCount.t) : Z :=
  Z.of_N (EmojiCount.count b) - Z.of_N (EmojiCount.count a).

Definition descending (a b : EmojiCount.t) : Prop :=
  (EmojiCount.count b <= EmojiCount.count a)%N.

Definition hasCount (c : N) (a : EmojiCount.t) : bool :=
  (EmojiCount.count a =? c)%N.

Definition toEmojiCount (kv : jsstring * N) : EmojiCount.t :=
  {| EmojiCount.emoji := fst kv; EmojiCount.count := snd kv |}.

Definition toNameValue (item : EmojiCount.t) : NameValue.t :=
  {| NameValue.name := EmojiCount.emoji item;
     NameValue.value := EmojiCount.count item |}.

Definition notIn (ks : list jsstring) (e : jsstring) : bool :=
  negb (existsb (eqb e) ks).

(** The two patterns of the queries, spelled out. *)
Definition fourDigits (s : jsstring) : Prop :=
  length s = 4%nat /\ Forall (fun c => isDigit c = true) s.

Definition yearAndMonth (s : jsstring) : Prop :=
  exists y mo, s = y ++ utf16 "-" ++ mo
               /\ fourDigits y
               /\ length mo = 2%nat /\ Forall (fun c => isDigit c = true) mo.

(** ** The inputs of the examples *)

Definition scenarioExport : ChatData.t :=
  exportOf [plainMessage (JStr (utf16 "2024-01-05T10:00:00"))
                         (JStr (utf16 "Добраніч 😀 Добраніч"))].

Definition scenarioBucket : MonthStat.t :=
  Eval vm_compute in
    match Analysis.monthlyStats (@analyzeChat exampleRuntime scenarioExport) with
    | (_, b) :: _ => b
    | [] => newMonth []
    end.

Definition unparseableMessage : Message.t :=
  plainMessage (JStr (utf16 "not a date")) (JStr (utf16 "Добраніч 😀 Добраніч")).

Definition unparseableExport : ChatData.t := exportOf [unparseableMessage].

Definition photoMessage : Message.t :=
  {| Message.type := JStr (utf16 "message");
     Message.date := JStr (utf16 "2024-01-05T10:00:00");
     Message.photo := JBool true; Message.media_type := JUndefined;
     Message.photo_id := JUndefined; Message.text := JUndefined |}.

Definition partyTable : jsobj N :=
  [(utf16 "🎉", 3); (utf16 "🔥", 3); (utf16 "😀", 2); (utf16 "🥳", 1);
   (utf16 "🎈", 1)]%N.

Definition partyFound : list jsstring :=
  map utf16 ["🎉"; "🔥"; "😀"; "🥳"; "🎈"; "🔥"; "🎉"; "😀"; "🔥"; "🎉"]%string.

Definition january : Server.MonthlyStat.t :=
  {| Server.MonthlyStat.month := utf16 "2024-01";
     Server.MonthlyStat.messageCount := 1;
     Server.MonthlyStat.photoCount := 0;
     Server.MonthlyStat.keywords := [];
     Server.MonthlyStat.keywordsFormatted := [];
     Server.MonthlyStat.emojisFormatted := [] |}.

Definition storedAnalysis : Server.ChatAnalysis.t :=
  {| Server.ChatAnalysis.chatName := JNull;
     Server.ChatAnalysis.chatId := JNum 1;
     Server.ChatAnalysis.totalMessages := 1;
     Server.ChatAnalysis.monthlyStats := [january] |}.

(* ===================================================================== *)
(** * chatParser.js: what is stored *)
(* ===================================================================== *)

(** [monthlyStatsArray] of [storeAnalysisInMongoDB]: the records of the
    months, in the order of [Object.values], with the fields of the
    schema. *)
Definition monthlyStatsArray (analysis : Analysis.t)
  : list Server.MonthlyStat.t :=
  map (fun month =>
         {| Server.MonthlyStat.month := MonthStat.month month;
            Server.MonthlyStat.messageCount := MonthStat.messageCount month;
            Server.MonthlyStat.photoCount := MonthStat.photoCount month;
            Server.MonthlyStat.keywords := MonthStat.keywords month;
            Server.MonthlyStat.keywordsFormatted :=
              match MonthStat.keywordsFormatted month with
              | Some l => l
              | None => []
              end;
            Server.MonthlyStat.emojisFormatted :=
              match MonthStat.emojisFormatted month with
              | Some l => l
              | None => []
              end |})
      (values (Analysis.monthlyStats analysis)).

(** The document [findOneAndUpdate] leaves under the chat id of the
    analysis (it is created when there is none), its [lastUpdated] stamp
    apart. *)
Definition storedDocument (analysis : Analysis.t) : Server.ChatAnalysis.t :=
  {| Server.ChatAnalysis.chatName := Analysis.chatName analysis;
     Server.ChatAnalysis.chatId := Analysis.chatId analysis;
     Server.ChatAnalysis.totalMessages := Analysis.totalMessages analysis;
     Server.ChatAnalysis.monthlyStats := monthlyStatsArray analysis |}.

(* ===================================================================== *)
(** * server.js: the gallery query *)
(* ===================================================================== *)

Module Gallery.

Record item : Type := { id : jsstring; url : jsstring; caption : jsstring }.

Inductive body : Type :=
| ErrorBody (error : String.string)
| GalleryBody (month : jsstring) (totalPhotos : N)
              (featuredPhotos gallery : list item).

Arguments ErrorBody error%_string.

Record response : Type := { status : N; json : body }.

(** [Array.from({ length: Math.min(photoCount, 10) }, (_, i) => ...)] *)
Definition galleryItems (monthKey : jsstring) (photoCount : N) : list item :=
  map (fun i =>
         {| id := monthKey ++ utf16 "-photo-"
                    ++ String_of (Num (Z.of_nat i + 1));
            url := utf16 "/api/placeholder/400/300";
            caption := utf16 "Photo " ++ String_of (Num (Z.of_nat i + 1))
                         ++ utf16 " of " ++ String_of (Num (Z.of_N photoCount)) |})
      (seq 0 (N.to_nat (N.min photoCount 10))).

(** GET /api/gallery/:monthKey *)
Definition getGallery (monthKey : jsstring) (db : Server.findOne) : response :=
  if negb (Server.testMonthKey monthKey)
  then {| status := 400;
          json := ErrorBody "Invalid month format. Use YYYY-MM" |}
  else
    match db with
    | Server.Rejected => {| status := 500; json := ErrorBody "Server error" |}
    | Server.Resolved None =>
      {| status := 404; json := ErrorBody "No chat analysis data found" |}
    | Server.Resolved (Some analysis) =>
      match find (fun stat => eqb (Server.MonthlyStat.month stat) monthKey)
                 (Server.ChatAnalysis.monthlyStats analysis) with
      | None =>
        {| status := 404;
           json := ErrorBody "No data found for the specified month" |}
      | Some monthData =>
        let photoCount := orZero (Some (Server.MonthlyStat.photoCount monthData)) in
        let galleryItems := galleryItems monthKey photoCount in
        {| status := 200;
           json := GalleryBody monthKey photoCount
                               (firstn 2 galleryItems) galleryItems |}
      end
    end.

End Gallery.

(* ===================================================================== *)
(** * Vocabulary of the further properties *)
(* ===================================================================== *)

(** The export with its [messages] replaced. *)
Definition withMessages (chatData : ChatData.t) (messages : list Message.t)
  : ChatData.t :=
  {| ChatData.name := ChatData.name chatData;
     ChatData.id := ChatData.id chatData;
     ChatData.messages := messages |}.

(** The matches of a keyword a message contributes. *)
Definition keywordHits {R : Runtime} (keyword : jsstring) (m : Message.t) : N :=
  if truthy (Message.text m)
  then countMatches keyword (messageTextOf (Message.text m))
  else 0%N.

Definition sumN (l : list N) : N := fold_right N.add 0%N l.

(** The number of occurrences of a string in a sequence. *)
Definition occurrences (e : jsstring) (es : list jsstring) : nat :=
  count_occ (list_eq_dec N.eq_dec) es e.

(** The last entry of a name/value list that bears the name [n]. *)
Definition lastNamed (n : jsstring) (l : list NameValue.t) : option N :=
  option_map NameValue.value
             (find (fun item => eqb (NameValue.name item) n) (rev l)).

Definition asEntry (item : NameValue.t) : jsstring * N :=
  (NameValue.name item, NameValue.value item).

(** The order [a.month.localeCompare(b.month)] sorts the year answer in. *)
Definition monthOrder {R : Runtime} (a b : jsstring * N) : Prop :=
  (localeCompare (fst a) (fst b) <= 0)%Z.

Definition otherExport : ChatData.t :=
  exportOf
    [plainMessage (JStr (utf16 "2024-02-01T08:00:00")) (JStr (utf16 "Скучив"));
     {| Message.type := JStr (utf16 "service");
        Message.date := JStr (utf16 "2024-01-07T10:00:00");
        Message.photo := JUndefined; Message.media_type := JUndefined;
        Message.photo_id := JUndefined; Message.text := JUndefined |};
     plainMessage (JStr (utf16 "2024-01-05T10:00:00"))
                  (JStr (utf16 "Добраніч 😀 Добраніч"))].

(* ===================================================================== *)
(** * Checks of the primitives *)
(* ===================================================================== *)

Unset Implicit Arguments.

Lemma eqb_eq a b : eqb a b = true <-> a = b.
Proof. unfold eqb. destruct (list_eq_dec N.eq_dec a b); split; congruence. Qed.

Lemma eqb_neq a b : eqb a b = false <-> a <> b.
Proof. unfold eqb. destruct (list_eq_dec N.eq_dec a b); split; congruence. Qed.

Lemma eqb_refl a : eqb a a = true.
Proof. now apply eqb_eq. Qed.

Lemma eqb_sym a b : eqb a b = eqb b a.
Proof.
  destruct (eqb b a) eqn:E.
  - apply eqb_eq in E. subst. apply eqb_refl.
  - apply eqb_neq in E. apply eqb_neq. congruence.
Qed.

Example utf16_ascii : utf16 "a-1" = [97; 45; 49]%N.
Proof. reflexivity. Qed.

Example utf16_cyrillic : utf16 "Дч" = [1044; 1095]%N.
Proof. reflexivity. Qed.

Example utf16_astral : utf16 "😀" = [55357; 56832]%N.
Proof. reflexivity. Qed.

Example arrayIndex_7 : arrayIndex (utf16 "7") = Some 7%N.
Proof. reflexivity. Qed.

Example arrayIndex_07 : arrayIndex (utf16 "07") = None.
Proof. reflexivity. Qed.

Example arrayIndex_max : arrayIndex (utf16 "4294967295") = None.
Proof. reflexivity. Qed.

Example set_index_first :
  keys (set (utf16 "2") 0%N (set (utf16 "10") 0%N (set (utf16 "b") 0%N [])))
  = [utf16 "2"; utf16 "10"; utf16 "b"].
Proof. reflexivity. Qed.

Example String_of_2024 : String_of (Num 2024) = utf16 "2024".
Proof. reflexivity. Qed.

Example String_of_neg : String_of (Num (-1)) = utf16 "-1".
Proof. reflexivity. Qed.

Example String_of_zero : String_of (Num 0) = utf16 "0".
Proof. reflexivity. Qed.

Example padStart_1 : padStart 2 48%N (utf16 "1") = utf16 "01".
Proof. reflexivity. Qed.

Example padStart_NaN : padStart 2 48%N (utf16 "NaN") = utf16 "NaN".
Proof. reflexivity. Qed.

Example countMatches_overlap :
  countMatches (utf16 "aa") (utf16 "aAaxAAA") = 2%N.
Proof. reflexivity. Qed.

(* ===================================================================== *)
(** * Facts about objects *)
(* ===================================================================== *)

Section ObjectFacts.
Context {V : Type}.
Implicit Types (o : jsobj V) (k : jsstring) (v : V).

Lemma get_None_keys k o : get k o = None <-> ~ In k (keys o).
Proof.
  induction o as [|[k' v'] r IH]; simpl.
  - tauto.
  - destruct (eqb k k') eqn:E.
    + apply eqb_eq in E. subst. split; [discriminate | intros H; elim H; auto].
    + apply eqb_neq in E. rewrite IH. split.
      * intros H [H1|H1]; [congruence | tauto].
      * tauto.
Qed.

Lemma get_Some_In k v o : get k o = Some v -> In (k, v) o.
Proof.
  induction o as [|[k' v'] r IH]; simpl; [discriminate|].
  destruct (eqb k k') eqn:E.
  - apply eqb_eq in E. intros [= ->]. subst. auto.
  - auto.
Qed.

Lemma In_get k v o : NoDup (keys o) -> In (k, v) o -> get k o = Some v.
Proof.
  induction o as [|[k' v'] r IH]; simpl; [tauto|].
  intros ND [H|H]; inversion ND as [|? ? Hn ND']; subst.
  - inversion H; subst. now rewrite eqb_refl.
  - destruct (eqb k k') eqn:E.
    + apply eqb_eq in E. subst. elim Hn.
      change k' with (fst (k', v)). now apply in_map.
    + auto.
Qed.

Lemma get_app k o1 o2 :
  get k (o1 ++ o2) = match get k o1 with Some v => Some v | None => get k o2 end.
Proof.
  induction o1 as [|[k' v'] r IH]; simpl; [reflexivity|].
  now destruct (eqb k k').
Qed.

Lemma keys_replace k v o : keys (replace k v o) = keys o.
Proof.
  induction o as [|[k' v'] r IH]; simpl; [reflexivity|].
  destruct (eqb k k'); simpl; [reflexivity | now rewrite IH].
Qed.

Lemma get_replace_eq k v o :
  get k o <> None -> get k (replace k v o) = Some v.
Proof.
  induction o as [|[k' v'] r IH]; simpl; [congruence|].
  destruct (eqb k k') eqn:E; simpl; rewrite E; auto.
Qed.

Lemma get_replace_neq k k' v o :
  k' <> k -> get k' (replace k v o) = get k' o.
Proof.
  intros Hne. induction o as [|[k0 v0] r IH]; simpl; [reflexivity|].
  destruct (eqb k k0) eqn:E; simpl.
  - apply eqb_eq in E. subst.
    assert (eqb k' k0 = false) as -> by now apply eqb_neq.
    reflexivity.
  - now rewrite IH.
Qed.

Lemma insertIndex_split i k v o :
  exists o1 o2, o = o1 ++ o2 /\ insertIndex i k v o = o1 ++ (k, v) :: o2.
Proof.
  induction o as [|[k' v'] r IH]; simpl.
  - now exists [], [].
  - destruct (arrayIndex k') as [j|].
    + destruct (j <? i)%N.
      * destruct IH as (o1 & o2 & -> & ->).
        now exists ((k', v') :: o1), o2.
      * now exists [], ((k', v') :: r).
    + now exists [], ((k', v') :: r).
Qed.

(** Whatever the key, a property that is created joins the others, and
    one that exists keeps its place. *)
Lemma set_split k v o :
  get k o = None ->
  exists o1 o2, o = o1 ++ o2 /\ set k v o = o1 ++ (k, v) :: o2.
Proof.
  intros H. unfold set. rewrite H.
  destruct (arrayIndex k) as [i|].
  - apply insertIndex_split.
  - exists o, []. now rewrite app_nil_r.
Qed.

Lemma set_new k v o :
  get k o = None -> arrayIndex k = None -> set k v o = o ++ [(k, v)].
Proof. intros H1 H2. unfold set. now rewrite H1, H2. Qed.

Lemma set_old k v o : get k o <> None -> set k v o = replace k v o.
Proof. unfold set. destruct (get k o); congruence. Qed.

Lemma get_set_eq k v o : get k (set k v o) = Some v.
Proof.
  destruct (get k o) eqn:E.
  - rewrite set_old by congruence. apply get_replace_eq. congruence.
  - destruct (set_split k v o E) as (o1 & o2 & -> & ->).
    rewrite get_app in *. destruct (get k o1); [discriminate|].
    simpl. now rewrite eqb_refl.
Qed.

Lemma get_set_neq k k' v o : k' <> k -> get k' (set k v o) = get k' o.
Proof.
  intros Hne. destruct (get k o) eqn:E.
  - rewrite set_old by congruence. now apply get_replace_neq.
  - destruct (set_split k v o E) as (o1 & o2 & -> & ->).
    rewrite !get_app. simpl.
    assert (eqb k' k = false) as -> by now apply eqb_neq.
    reflexivity.
Qed.

Lemma keys_set_old k v o : get k o <> None -> keys (set k v o) = keys o.
Proof. intros H. rewrite set_old by assumption. apply keys_replace. Qed.

Lemma NoDup_keys_set k v o : NoDup (keys o) -> NoDup (keys (set k v o)).
Proof.
  intros ND. destruct (get k o) eqn:E.
  - rewrite keys_set_old by congruence. assumption.
  - apply get_None_keys in E.
    destruct (set_split k v o (proj2 (get_None_keys k o) E)) as (o1 & o2 & -> & ->).
    unfold keys in *. rewrite map_app in *. simpl.
    apply NoDup_Add with (a := k) (l := map fst o1 ++ map fst o2); auto.
    apply Add_app.
Qed.

Lemma In_replace k v o kv :
  In kv (replace k v o) -> kv = (k, v) \/ In kv o.
Proof.
  induction o as [|[k' v'] r IH]; simpl; [tauto|].
  destruct (eqb k k') eqn:E; simpl.
  - apply eqb_eq in E. subst. intros [H|H]; auto.
  - intros [H|H]; [auto|]. destruct (IH H); auto.
Qed.

Lemma In_set k v o kv : In kv (set k v o) -> kv = (k, v) \/ In kv o.
Proof.
  destruct (get k o) eqn:E.
  - rewrite set_old by congruence. apply In_replace.
  - destruct (set_split k v o E) as (o1 & o2 & -> & ->).
    rewrite !in_app_iff. simpl. intuition auto.
Qed.

Lemma keys_update k f o : keys (update k f o) = keys o.
Proof. unfold update. destruct (get k o); [apply keys_replace | reflexivity]. Qed.

Lemma get_update_eq k f o : get k (update k f o) = option_map f (get k o).
Proof.
  unfold update. destruct (get k o) eqn:E; simpl; [|assumption].
  apply get_replace_eq. congruence.
Qed.

Lemma get_update_neq k k' f o : k' <> k -> get k' (update k f o) = get k' o.
Proof.
  intros H. unfold update. destruct (get k o); [|reflexivity].
  now apply get_replace_neq.
Qed.

Lemma In_update k f o kv :
  In kv (update k f o) ->
  In kv o \/ exists v, In (k, v) o /\ kv = (k, f v).
Proof.
  unfold update. destruct (get k o) eqn:E; [|tauto].
  intros H. apply In_replace in H. destruct H as [->|H]; [|tauto].
  right. exists v. split; [now apply get_Some_In | reflexivity].
Qed.

(** On a map without repeated keys, mutating the value under each key in
    turn is mapping over the values. *)
Lemma update_head k v f (r : jsobj V) :
  update k f ((k, v) :: r) = (k, f v) :: r.
Proof. unfold update. simpl. now rewrite eqb_refl. Qed.

Lemma update_tail k k' v f (r : jsobj V) :
  k <> k' -> update k f ((k', v) :: r) = (k', v) :: update k f r.
Proof.
  intros H. unfold update. simpl.
  assert (eqb k k' = false) as -> by now apply eqb_neq.
  destruct (get k r); reflexivity.
Qed.

Lemma update_absent k f o : ~ In k (keys o) -> update k f o = o.
Proof. intros H. apply get_None_keys in H. unfold update. now rewrite H. Qed.

Lemma fold_update_absent f (ks : list jsstring) o :
  (forall k, In k ks -> ~ In k (keys o)) ->
  fold_left (fun m k => update k f m) ks o = o.
Proof.
  induction ks as [|k ks IH]; simpl; [reflexivity|].
  intros H. rewrite update_absent by auto. auto.
Qed.

Lemma fold_update_cons f (ks : list jsstring) k v o :
  ~ In k ks ->
  fold_left (fun m k => update k f m) ks ((k, v) :: o)
  = (k, v) :: fold_left (fun m k => update k f m) ks o.
Proof.
  revert o. induction ks as [|k' ks IH]; simpl; [reflexivity|].
  intros o H. rewrite update_tail by tauto. apply IH. tauto.
Qed.

Lemma fold_update_keys f o :
  NoDup (keys o) ->
  fold_left (fun m k => update k f m) (keys o) o
  = map (fun kv => (fst kv, f (snd kv))) o.
Proof.
  induction o as [|[k v] r IH]; simpl; [reflexivity|].
  intros ND. inversion ND as [|? ? Hn ND']; subst.
  rewrite update_head. rewrite fold_update_cons by assumption.
  now rewrite IH.
Qed.

End ObjectFacts.

(* ===================================================================== *)
(** * Month keys *)
(* ===================================================================== *)

Lemma arrayIndex_digits s i : arrayIndex s = Some i -> forallb isDigit s = true.
Proof.
  unfold arrayIndex. destruct s as [|c r]; [discriminate|].
  destruct (forallb isDigit (c :: r)); [reflexivity | discriminate].
Qed.

Lemma arrayIndex_hyphen a b : arrayIndex (a ++ utf16 "-" ++ b) = None.
Proof.
  destruct (arrayIndex (a ++ utf16 "-" ++ b)) as [i|] eqn:E; [|reflexivity].
  apply arrayIndex_digits in E. rewrite forallb_app in E.
  apply andb_prop in E. destruct E as [_ E]. discriminate.
Qed.

Lemma String_of_head z : exists s, String_of (Num z) ++ utf16 "-" = s /\ hd 0%N s <> 78%N.
Proof.
  eexists. split; [reflexivity|].
  unfold String_of. destruct (Z.to_int z) as [u|u]; [|simpl; discriminate].
  destruct u; simpl; discriminate.
Qed.

Section MonthKeys.
Context {R : Runtime}.

Lemma monthKeyOf_not_index m : arrayIndex (monthKeyOf m) = None.
Proof. unfold monthKeyOf. apply arrayIndex_hyphen. Qed.

Lemma monthKeyOf_invalid m :
  Date_new (Message.date m) = InvalidDate -> monthKeyOf m = utf16 "NaN-NaN".
Proof. unfold monthKeyOf. intros ->. reflexivity. Qed.

Lemma monthKeyOf_valid m y mo :
  Date_new (Message.date m) = LocalDate y mo -> monthKeyOf m <> utf16 "NaN-NaN".
Proof.
  unfold monthKeyOf. intros ->. simpl getFullYear.
  destruct (String_of_head y) as (s & Hs & Hh).
  rewrite app_assoc. rewrite Hs. intros E.
  destruct s as [|c s']; simpl in *.
  - apply app_eq_nil in Hs. destruct Hs as [_ Hs]. discriminate.
  - apply Hh. now inversion E.
Qed.

Lemma dateParseable_key m :
  dateParseable m = negb (eqb (monthKeyOf m) (utf16 "NaN-NaN")).
Proof.
  unfold dateParseable. destruct (Date_new (Message.date m)) eqn:E.
  - rewrite (monthKeyOf_invalid m E). reflexivity.
  - symmetry. apply negb_true_iff, eqb_neq. eapply monthKeyOf_valid; eauto.
Qed.

End MonthKeys.

(* ===================================================================== *)
(** * The first loop, one record at a time *)
(* ===================================================================== *)

(** Induction over a [fold_left] whose steps keep a projection. *)
Lemma fold_left_keeps {A B C : Type} (f : A -> B -> A) (p : A -> C) :
  (forall a b, p (f a b) = p a) ->
  forall l a, p (fold_left f l a) = p a.
Proof.
  intros H l. induction l as [|b l IH]; simpl; intros a; [reflexivity|].
  now rewrite IH, H.
Qed.

Ltac keeps_field :=
  apply fold_left_keeps; intros;
  repeat match goal with |- context [if ?c then _ else _] => destruct c end;
  reflexivity.

Lemma countKeywords_messageCount t b :
  MonthStat.messageCount (countKeywords t b) = MonthStat.messageCount b.
Proof. unfold countKeywords. keeps_field. Qed.

Lemma countKeywords_photoCount t b :
  MonthStat.photoCount (countKeywords t b) = MonthStat.photoCount b.
Proof. unfold countKeywords. keeps_field. Qed.

Lemma countKeywords_emojis t b :
  MonthStat.emojis (countKeywords t b) = MonthStat.emojis b.
Proof. unfold countKeywords. keeps_field. Qed.

Lemma countKeywords_month t b :
  MonthStat.month (countKeywords t b) = MonthStat.month b.
Proof. unfold countKeywords. keeps_field. Qed.

Lemma countKeywords_keys t b :
  keys (MonthStat.keywords (countKeywords t b)) = keys (MonthStat.keywords b).
Proof.
  unfold countKeywords.
  apply (fold_left_keeps _ (fun b => keys (MonthStat.keywords b))).
  intros a k. destruct (0 <? countMatches k t)%N; [|reflexivity].
  simpl. apply keys_update.
Qed.

Lemma countEmojis_messageCount es b :
  MonthStat.messageCount (countEmojis es b) = MonthStat.messageCount b.
Proof. unfold countEmojis. keeps_field. Qed.

Lemma countEmojis_photoCount es b :
  MonthStat.photoCount (countEmojis es b) = MonthStat.photoCount b.
Proof. unfold countEmojis. keeps_field. Qed.

Lemma countEmojis_keywords es b :
  MonthStat.keywords (countEmojis es b) = MonthStat.keywords b.
Proof. unfold countEmojis. keeps_field. Qed.

Lemma countEmojis_month es b :
  MonthStat.month (countEmojis es b) = MonthStat.month b.
Proof. unfold countEmojis. keeps_field. Qed.

Lemma countEmojis_emojis es b :
  MonthStat.emojis (countEmojis es b) = bumpAll es (MonthStat.emojis b).
Proof.
  unfold countEmojis, bumpAll. revert b.
  induction es as [|e es IH]; simpl; intros b; [reflexivity|].
  now rewrite IH.
Qed.

Lemma bumpAll_app es1 es2 tbl :
  bumpAll (es1 ++ es2) tbl = bumpAll es2 (bumpAll es1 tbl).
Proof. unfold bumpAll. apply fold_left_app. Qed.

Section FirstLoop.
Context {R : Runtime}.

Lemma accumulate_messageCount m b :
  MonthStat.messageCount (accumulate m b) = (MonthStat.messageCount b + 1)%N.
Proof.
  unfold accumulate.
  destruct (truthy (Message.text m));
    [rewrite countEmojis_messageCount, countKeywords_messageCount|];
    destruct (isPhoto m); reflexivity.
Qed.

Lemma accumulate_photoCount m b :
  MonthStat.photoCount (accumulate m b)
  = (MonthStat.photoCount b + if isPhoto m then 1 else 0)%N.
Proof.
  unfold accumulate.
  destruct (truthy (Message.text m));
    [rewrite countEmojis_photoCount, countKeywords_photoCount|];
    destruct (isPhoto m); simpl; lia.
Qed.

Lemma accumulate_month m b :
  MonthStat.month (accumulate m b) = MonthStat.month b.
Proof.
  unfold accumulate.
  destruct (truthy (Message.text m));
    [rewrite countEmojis_month, countKeywords_month|];
    destruct (isPhoto m); reflexivity.
Qed.

Lemma accumulate_keys m b :
  keys (MonthStat.keywords (accumulate m b)) = keys (MonthStat.keywords b).
Proof.
  unfold accumulate.
  destruct (truthy (Message.text m));
    [rewrite countEmojis_keywords, countKeywords_keys|];
    destruct (isPhoto m); reflexivity.
Qed.

Lemma accumulate_emojis m b :
  MonthStat.emojis (accumulate m b) = bumpAll (emojisOf m) (MonthStat.emojis b).
Proof.
  unfold accumulate, emojisOf.
  destruct (truthy (Message.text m));
    [rewrite countEmojis_emojis, countKeywords_emojis|];
    destruct (isPhoto m); reflexivity.
Qed.

Lemma processMessage_skip ms m : isMessage m = false -> processMessage ms m = ms.
Proof. unfold processMessage, isMessage. now intros ->. Qed.

Lemma get_processMessage ms m k :
  get k (processMessage ms m)
  = if isMessage m && eqb (monthKeyOf m) k
    then Some (accumulate m (recordOr k ms))
    else get k ms.
Proof.
  unfold processMessage, isMessage, recordOr.
  destruct (strictEqStr (Message.type m) (utf16 "message")); simpl;
    [|reflexivity].
  destruct (eqb (monthKeyOf m) k) eqn:E.
  - apply eqb_eq in E. subst k. rewrite get_update_eq.
    destruct (get (monthKeyOf m) ms) eqn:G.
    + now rewrite G.
    + now rewrite get_set_eq.
  - apply eqb_neq in E. rewrite get_update_neq by congruence.
    destruct (get (monthKeyOf m) ms); [reflexivity|].
    apply get_set_neq. congruence.
Qed.

(** After the loop, the record of a month is the new record with the
    month's messages accumulated in the order of the export, and a month
    without message has no record. *)
Lemma get_fold_processMessage messages : forall ms k,
  get k (fold_left processMessage messages ms)
  = match get k ms, messagesOf k messages with
    | None, [] => None
    | _, sel => Some (accumulateAll sel (recordOr k ms))
    end.
Proof.
  unfold messagesOf, accumulateAll.
  induction messages as [|m messages IH]; intros ms k; simpl.
  - unfold recordOr. now destruct (get k ms).
  - rewrite IH. rewrite get_processMessage.
    destruct (isMessage m && eqb (monthKeyOf m) k) eqn:E; simpl.
    + unfold recordOr at 1. rewrite get_processMessage, E.
      now destruct (get k ms).
    + unfold recordOr. rewrite get_processMessage, E.
      reflexivity.
Qed.

Lemma get_firstLoop messages k :
  get k (firstLoop messages)
  = match messagesOf k messages with
    | [] => None
    | sel => Some (accumulateAll sel (newMonth k))
    end.
Proof. unfold firstLoop. now rewrite get_fold_processMessage. Qed.

Lemma NoDup_keys_processMessage ms m :
  NoDup (keys ms) -> NoDup (keys (processMessage ms m)).
Proof.
  intros ND. unfold processMessage.
  destruct (negb _); [assumption|].
  rewrite keys_update.
  destruct (get (monthKeyOf m) ms); [assumption|].
  now apply NoDup_keys_set.
Qed.

Lemma NoDup_keys_firstLoop messages : NoDup (keys (firstLoop messages)).
Proof.
  unfold firstLoop.
  assert (forall ms, NoDup (keys ms) ->
            NoDup (keys (fold_left processMessage messages ms))) as H.
  { induction messages as [|m messages IH]; simpl; intros ms ND; auto.
    apply IH. now apply NoDup_keys_processMessage. }
  apply H. constructor.
Qed.

(** The second loop rewrites every record, and nothing else. *)
Lemma secondLoop_map ms :
  NoDup (keys ms) ->
  secondLoop ms = map (fun kv => (fst kv, finalizeMonth (snd kv))) ms.
Proof. intros ND. unfold secondLoop. now apply fold_update_keys. Qed.

Lemma keys_secondLoop ms : keys (secondLoop ms) = keys ms.
Proof.
  unfold secondLoop.
  assert (forall ks (o : jsobj MonthStat.t),
            keys (fold_left (fun m k => update k finalizeMonth m) ks o)
            = keys o) as H.
  { induction ks as [|k ks IH]; simpl; intros o; [reflexivity|].
    now rewrite IH, keys_update. }
  apply H.
Qed.

Lemma get_map_values (f : MonthStat.t -> MonthStat.t) k (ms : jsobj MonthStat.t) :
  get k (map (fun kv => (fst kv, f (snd kv))) ms) = option_map f (get k ms).
Proof.
  induction ms as [|[k' v'] r IH]; simpl; [reflexivity|].
  destruct (eqb k k'); [reflexivity | assumption].
Qed.

(** The output: the records of the first loop, finalized. *)
Lemma monthlyStats_analyzeChat chatData :
  Analysis.monthlyStats (analyzeChat chatData)
  = map (fun kv => (fst kv, finalizeMonth (snd kv)))
        (firstLoop (ChatData.messages chatData)).
Proof. unfold analyzeChat. simpl. apply secondLoop_map, NoDup_keys_firstLoop. Qed.

Lemma get_analyzeChat chatData k :
  get k (Analysis.monthlyStats (analyzeChat chatData))
  = match messagesOf k (ChatData.messages chatData) with
    | [] => None
    | sel => Some (finalizeMonth (accumulateAll sel (newMonth k)))
    end.
Proof.
  rewrite monthlyStats_analyzeChat, get_map_values, get_firstLoop.
  now destruct (messagesOf k (ChatData.messages chatData)).
Qed.

End FirstLoop.

(* ===================================================================== *)
(** * Message counts *)
(* ===================================================================== *)

Section Sums.
Variable P : jsstring -> bool.

Lemma sumMessageCount_app (o1 o2 : jsobj MonthStat.t) :
  sumMessageCount P (o1 ++ o2)
  = (sumMessageCount P o1 + sumMessageCount P o2)%N.
Proof.
  unfold sumMessageCount. rewrite filter_app, map_app.
  induction (map _ (filter _ o1)) as [|x l IH]; simpl; [reflexivity|].
  rewrite IH. lia.
Qed.

Lemma sumMessageCount_cons k b (o : jsobj MonthStat.t) :
  sumMessageCount P ((k, b) :: o)
  = ((if P k then MonthStat.messageCount b else 0) + sumMessageCount P o)%N.
Proof. unfold sumMessageCount. simpl. destruct (P k); reflexivity. Qed.

Lemma sumMessageCount_replace k b b0 d (o : jsobj MonthStat.t) :
  get k o = Some b0 ->
  MonthStat.messageCount b = (MonthStat.messageCount b0 + d)%N ->
  sumMessageCount P (replace k b o)
  = (sumMessageCount P o + if P k then d else 0)%N.
Proof.
  intros G Hd. induction o as [|[k' b'] r IH]; simpl in *; [discriminate|].
  destruct (eqb k k') eqn:E.
  - apply eqb_eq in E. subst k'. injection G as ->.
    rewrite !sumMessageCount_cons. destruct (P k); lia.
  - rewrite !sumMessageCount_cons, IH by assumption. lia.
Qed.

Lemma sumMessageCount_set_new k b (o : jsobj MonthStat.t) :
  get k o = None ->
  sumMessageCount P (set k b o)
  = (sumMessageCount P o + if P k then MonthStat.messageCount b else 0)%N.
Proof.
  intros G. destruct (set_split k b o G) as (o1 & o2 & -> & ->).
  rewrite !sumMessageCount_app, sumMessageCount_cons. lia.
Qed.

Lemma sumMessageCount_update k f b0 d (o : jsobj MonthStat.t) :
  get k o = Some b0 ->
  MonthStat.messageCount (f b0) = (MonthStat.messageCount b0 + d)%N ->
  sumMessageCount P (update k f o)
  = (sumMessageCount P o + if P k then d else 0)%N.
Proof.
  intros G Hd. unfold update. rewrite G.
  now apply sumMessageCount_replace with (b0 := b0).
Qed.

Lemma sumMessageCount_map (f : MonthStat.t -> MonthStat.t) (o : jsobj MonthStat.t) :
  (forall b, MonthStat.messageCount (f b) = MonthStat.messageCount b) ->
  sumMessageCount P (map (fun kv => (fst kv, f (snd kv))) o)
  = sumMessageCount P o.
Proof.
  intros H. induction o as [|[k b] r IH]; [reflexivity|].
  simpl map. rewrite !sumMessageCount_cons, IH, H. reflexivity.
Qed.

Context {R : Runtime}.

Lemma sumMessageCount_processMessage ms m :
  sumMessageCount P (processMessage ms m)
  = (sumMessageCount P ms
     + if isMessage m && P (monthKeyOf m) then 1 else 0)%N.
Proof.
  destruct (isMessage m) eqn:M; simpl.
  2:{ rewrite processMessage_skip by assumption. lia. }
  unfold processMessage. unfold isMessage in M. rewrite M. simpl.
  destruct (get (monthKeyOf m) ms) as [b0|] eqn:G.
  - apply sumMessageCount_update with (b0 := b0); [assumption|].
    apply accumulate_messageCount.
  - rewrite sumMessageCount_update
      with (b0 := newMonth (monthKeyOf m)) (d := 1%N).
    + rewrite sumMessageCount_set_new by assumption. simpl.
      destruct (P (monthKeyOf m)); lia.
    + apply get_set_eq.
    + apply accumulate_messageCount.
Qed.

Lemma sumMessageCount_fold messages : forall ms,
  sumMessageCount P (fold_left processMessage messages ms)
  = (sumMessageCount P ms
     + countWhere (fun m => isMessage m && P (monthKeyOf m)) messages)%N.
Proof.
  unfold countWhere.
  induction messages as [|m messages IH]; intros ms; simpl; [lia|].
  rewrite IH, sumMessageCount_processMessage.
  destruct (isMessage m && P (monthKeyOf m)); simpl length; lia.
Qed.

Lemma sumMessageCount_analyzeChat chatData :
  sumMessageCount P (Analysis.monthlyStats (analyzeChat chatData))
  = countWhere (fun m => isMessage m && P (monthKeyOf m))
               (ChatData.messages chatData).
Proof.
  rewrite monthlyStats_analyzeChat.
  rewrite sumMessageCount_map by reflexivity.
  unfold firstLoop. rewrite sumMessageCount_fold. reflexivity.
Qed.

End Sums.

Lemma countWhere_ext (f g : Message.t -> bool) messages :
  (forall m, f m = g m) -> countWhere f messages = countWhere g messages.
Proof. intros H. unfold countWhere. now rewrite (filter_ext f g H). Qed.

(** C1, as amended.  The sum of [messageCount] over all buckets is the
    number of entries of type "message", whether or not their date can be
    parsed; over the buckets other than "NaN-NaN" it is the number of
    entries of type "message" with a parseable date. *)
Theorem messageCount_sum {R : Runtime} (chatData : ChatData.t) :
  let out := Analysis.monthlyStats (analyzeChat chatData) in
  sumMessageCount anyKey out = countWhere isMessage (ChatData.messages chatData)
  /\ sumMessageCount validKey out
     = countWhere (fun m => isMessage m && dateParseable m)
                  (ChatData.messages chatData).
Proof.
  cbv zeta. rewrite !sumMessageCount_analyzeChat. split.
  - apply countWhere_ext. intros m. unfold anyKey. apply andb_true_r.
  - apply countWhere_ext. intros m. now rewrite dateParseable_key.
Qed.

(** C1 as stated fails: one message of type "message" with an unparseable
    date is counted in a bucket, so the sum is 1 where the number of
    messages with a parseable date is 0. *)
Lemma messageCount_sum_counterexample :
  let out := Analysis.monthlyStats (@analyzeChat exampleRuntime unparseableExport) in
  sumMessageCount anyKey out = 1%N
  /\ countWhere (fun m => isMessage m && @dateParseable exampleRuntime m)
                (ChatData.messages unparseableExport) = 0%N
  /\ sumMessageCount anyKey out
     <> countWhere (fun m => isMessage m && @dateParseable exampleRuntime m)
                   (ChatData.messages unparseableExport).
Proof. vm_compute. repeat split; discriminate. Qed.

(** C10.  [totalMessages] is the length of the whole [messages] sequence,
    entries of every type and with every date included, while the buckets
    count the entries of type "message" only. *)
Theorem totalMessages_length {R : Runtime} (chatData : ChatData.t) :
  Analysis.totalMessages (analyzeChat chatData)
  = N.of_nat (length (ChatData.messages chatData))
  /\ (sumMessageCount anyKey (Analysis.monthlyStats (analyzeChat chatData))
      <= Analysis.totalMessages (analyzeChat chatData))%N.
Proof.
  split; [reflexivity|].
  rewrite sumMessageCount_analyzeChat. unfold analyzeChat, countWhere. simpl.
  assert (length (filter (fun m => isMessage m && anyKey (monthKeyOf m))
                         (ChatData.messages chatData))
          <= length (ChatData.messages chatData))%nat as H
    by apply filter_length_le.
  lia.
Qed.

(* ===================================================================== *)
(** * Messages whose date cannot be parsed *)
(* ===================================================================== *)

Lemma finalizeMonth_month b :
  MonthStat.month (finalizeMonth b) = MonthStat.month b.
Proof. reflexivity. Qed.

Lemma finalizeMonth_messageCount b :
  MonthStat.messageCount (finalizeMonth b) = MonthStat.messageCount b.
Proof. reflexivity. Qed.

Section InvalidDates.
Context {R : Runtime}.

Lemma accumulateAll_messageCount sel b :
  MonthStat.messageCount (accumulateAll sel b)
  = (MonthStat.messageCount b + N.of_nat (length sel))%N.
Proof.
  unfold accumulateAll. revert b.
  induction sel as [|m sel IH]; intros b; simpl fold_left; simpl length.
  - lia.
  - rewrite IH, accumulate_messageCount. lia.
Qed.

Lemma accumulateAll_month sel b :
  MonthStat.month (accumulateAll sel b) = MonthStat.month b.
Proof.
  unfold accumulateAll.
  apply (fold_left_keeps (fun b m => accumulate m b) MonthStat.month).
  intros a m. apply accumulate_month.
Qed.

Lemma messagesOf_invalid messages :
  messagesOf (utf16 "NaN-NaN") messages
  = filter (fun m => isMessage m && negb (dateParseable m)) messages.
Proof.
  unfold messagesOf. apply filter_ext. intros m.
  rewrite dateParseable_key, negb_involutive. reflexivity.
Qed.

End InvalidDates.

(** C2, as amended.  A message of type "message" whose date cannot be
    parsed is not skipped: it is accumulated, as every message is, in the
    record of its month key, which is "NaN-NaN" (created if it is not
    there); that record counts one message more, the other records are
    left as they are, and the step yields the next state of the pass
    whatever the message holds. *)
Theorem unparseable_date_accumulated {R : Runtime}
    (ms : jsobj MonthStat.t) (m : Message.t) :
  isMessage m = true ->
  dateParseable m = false ->
  let key := utf16 "NaN-NaN" in
  get key (processMessage ms m) = Some (accumulate m (recordOr key ms))
  /\ MonthStat.messageCount (accumulate m (recordOr key ms))
     = (MonthStat.messageCount (recordOr key ms) + 1)%N
  /\ (forall k, k <> key -> get k (processMessage ms m) = get k ms).
Proof.
  intros M D key.
  assert (monthKeyOf m = key) as K.
  { rewrite dateParseable_key in D. apply negb_false_iff in D.
    now apply eqb_eq in D. }
  split; [|split].
  - rewrite get_processMessage, M, K, eqb_refl. reflexivity.
  - apply accumulate_messageCount.
  - intros k Hk. rewrite get_processMessage, M, K.
    assert (eqb key k = false) as -> by (apply eqb_neq; congruence).
    reflexivity.
Qed.

Lemma unparseable_date_accumulated_witness :
  get (utf16 "NaN-NaN") (@processMessage exampleRuntime [] unparseableMessage)
  = Some (@accumulate exampleRuntime unparseableMessage
            (recordOr (utf16 "NaN-NaN") [])).
Proof.
  apply (@unparseable_date_accumulated exampleRuntime [] unparseableMessage);
    reflexivity.
Defined.

(** C2 as stated fails: the message with the unparseable date is not
    excluded.  Processing it changes the state, and the output holds a
    bucket in which it is counted, with its keyword and emoji
    occurrences. *)
Lemma unparseable_date_counterexample :
  isMessage unparseableMessage = true
  /\ @dateParseable exampleRuntime unparseableMessage = false
  /\ @processMessage exampleRuntime [] unparseableMessage <> []
  /\ exists b,
       Analysis.monthlyStats (@analyzeChat exampleRuntime (exportOf [unparseableMessage]))
       = [(utf16 "NaN-NaN", b)]
       /\ MonthStat.messageCount b = 1%N
       /\ get (utf16 "добраніч") (MonthStat.keywords b) = Some 2%N
       /\ get (utf16 "😀") (MonthStat.emojis b) = Some 1%N.
Proof.
  split; [reflexivity|]. split; [reflexivity|]. split.
  - vm_compute. discriminate.
  - eexists. split; [vm_compute; reflexivity|]. vm_compute. auto.
Qed.

(** C9.  As soon as one entry of type "message" has a date that fails to
    parse, the output has a bucket under the key "NaN-NaN": its [month]
    is that string, its [messageCount] is the number of such entries, and
    it is the record every month key gets, the new record with the
    messages of the key accumulated, then finalized. *)
Theorem invalid_date_bucket {R : Runtime} (chatData : ChatData.t) (m : Message.t) :
  In m (ChatData.messages chatData) ->
  isMessage m = true ->
  dateParseable m = false ->
  let key := utf16 "NaN-NaN" in
  let out := Analysis.monthlyStats (analyzeChat chatData) in
  exists b,
    In (key, b) out
    /\ get key out = Some b
    /\ MonthStat.month b = key
    /\ MonthStat.messageCount b
       = countWhere (fun m => isMessage m && negb (dateParseable m))
                    (ChatData.messages chatData)
    /\ (1 <= MonthStat.messageCount b)%N
    /\ b = finalizeMonth
             (accumulateAll (messagesOf key (ChatData.messages chatData))
                            (newMonth key)).
Proof.
  intros Hin M D key out.
  assert (In m (messagesOf key (ChatData.messages chatData))) as Hsel.
  { unfold messagesOf. apply filter_In. split; [assumption|].
    rewrite M. simpl. rewrite dateParseable_key in D.
    now apply negb_false_iff in D. }
  pose proof (get_analyzeChat chatData key) as G. fold out in G.
  destruct (messagesOf key (ChatData.messages chatData)) as [|m0 sel] eqn:S;
    [contradiction|].
  eexists. split; [apply get_Some_In; exact G|].
  split; [exact G|]. split; [|split; [|split]].
  - rewrite finalizeMonth_month. apply accumulateAll_month.
  - rewrite finalizeMonth_messageCount, accumulateAll_messageCount.
    unfold countWhere. rewrite <- messagesOf_invalid. fold key. rewrite S.
    simpl MonthStat.messageCount. lia.
  - rewrite finalizeMonth_messageCount, accumulateAll_messageCount.
    simpl length. lia.
  - reflexivity.
Qed.

Lemma invalid_date_bucket_witness :
  exists b,
    In (utf16 "NaN-NaN", b)
       (Analysis.monthlyStats (@analyzeChat exampleRuntime unparseableExport))
    /\ MonthStat.messageCount b = 1%N.
Proof.
  destruct (@invalid_date_bucket exampleRuntime unparseableExport unparseableMessage)
    as (b & Hin & _ & _ & Hc & _);
    [left; reflexivity | reflexivity | reflexivity |].
  exists b. split; [exact Hin | exact Hc].
Defined.

(* ===================================================================== *)
(** * Keywords of a bucket *)
(* ===================================================================== *)

Lemma newMonth_keys k :
  keys (MonthStat.keywords (newMonth k)) = map toLowerCase keywords.
Proof. reflexivity. Qed.

Lemma NoDup_lowered_keywords : NoDup (map toLowerCase keywords).
Proof.
  vm_compute.
  repeat (constructor; [simpl; intuition discriminate|]). constructor.
Qed.

Lemma accumulateAll_keys {R : Runtime} sel b :
  keys (MonthStat.keywords (accumulateAll sel b)) = keys (MonthStat.keywords b).
Proof.
  unfold accumulateAll.
  apply (fold_left_keeps (fun b m => accumulate m b)
                         (fun b => keys (MonthStat.keywords b))).
  intros a m. apply accumulate_keys.
Qed.

(** Every record of the output is the finalized record of its key. *)
Lemma In_analyzeChat {R : Runtime} chatData k b :
  In (k, b) (Analysis.monthlyStats (analyzeChat chatData)) ->
  exists sel,
    sel = messagesOf k (ChatData.messages chatData)
    /\ b = finalizeMonth (accumulateAll sel (newMonth k)).
Proof.
  intros Hin. apply In_get in Hin.
  - rewrite get_analyzeChat in Hin.
    destruct (messagesOf k (ChatData.messages chatData)) as [|m0 sel] eqn:S;
      [discriminate|].
    injection Hin as <-. exists (m0 :: sel). now split.
  - unfold analyzeChat. simpl. rewrite keys_secondLoop.
    apply NoDup_keys_firstLoop.
Qed.

(** C5.  In every bucket of the output, [keywordsFormatted] has one entry
    per keyword, named by the keyword in lower case, in the order of the
    keyword list, whatever the counts; the values are the counts of the
    bucket's [keywords], zero included. *)
Theorem keywordsFormatted_shape {R : Runtime} (chatData : ChatData.t)
    (k : jsstring) (b : MonthStat.t) :
  In (k, b) (Analysis.monthlyStats (analyzeChat chatData)) ->
  exists kf,
    MonthStat.keywordsFormatted b = Some kf
    /\ map NameValue.name kf = map toLowerCase keywords
    /\ length kf = length keywords
    /\ NoDup (map NameValue.name kf)
    /\ map NameValue.value kf = values (MonthStat.keywords b)
    /\ (forall item, In item kf ->
          get (NameValue.name item) (MonthStat.keywords b)
          = Some (NameValue.value item)).
Proof.
  intros Hin. destruct (In_analyzeChat chatData k b Hin) as (sel & _ & ->).
  set (b0 := accumulateAll sel (newMonth k)).
  assert (keys (MonthStat.keywords b0) = map toLowerCase keywords) as K.
  { unfold b0. rewrite accumulateAll_keys. apply newMonth_keys. }
  eexists. split; [reflexivity|].
  change (MonthStat.keywords (finalizeMonth b0)) with (MonthStat.keywords b0).
  assert (forall (o : jsobj N),
            map NameValue.name
                (map (fun '(keyword, count) =>
                        {| NameValue.name := keyword; NameValue.value := count |})
                     (entries o)) = keys o) as Hn.
  { intros o. unfold entries, keys. rewrite map_map.
    apply map_ext. now intros [? ?]. }
  split; [now rewrite Hn|].
  split.
  { rewrite length_map. unfold entries.
    rewrite <- (length_map fst), <- (length_map toLowerCase keywords).
    now f_equal. }
  split; [rewrite Hn, K; apply NoDup_lowered_keywords|].
  split.
  { unfold entries, values. rewrite map_map. apply map_ext. now intros [? ?]. }
  intros item Hi. apply in_map_iff in Hi. destruct Hi as ([kw c] & <- & Hi).
  simpl. apply In_get; [|exact Hi].
  fold (keys (MonthStat.keywords b0)). rewrite K. apply NoDup_lowered_keywords.
Qed.

Lemma keywordsFormatted_shape_witness :
  exists kf,
    map NameValue.name kf
    = [utf16 "добраніч"; utf16 "солодких"; utf16 "доброго ранку"; utf16 "скучив"]
    /\ map NameValue.value kf = [2; 0; 0; 0]%N.
Proof.
  destruct (Analysis.monthlyStats (@analyzeChat exampleRuntime scenarioExport))
    as [|[k b] r] eqn:E; [discriminate E|].
  destruct (@keywordsFormatted_shape exampleRuntime scenarioExport k b)
    as (kf & _ & Hn & _ & _ & Hv & _).
  - rewrite E. left. reflexivity.
  - exists kf. split; [exact Hn|].
    rewrite Hv. injection E as _ <- _. reflexivity.
Defined.

(* ===================================================================== *)
(** * Photos *)
(* ===================================================================== *)

Lemma isPhoto_signalsPhoto m : isPhoto m = signalsPhoto m.
Proof.
  unfold isPhoto, signalsPhoto.
  destruct (Message.media_type m) as [| |b|n|s|l|l]; simpl; try reflexivity;
    try (now rewrite andb_false_r).
  destruct s; reflexivity.
Qed.

(** C6.  Processing a message of type "message" adds one to the
    [photoCount] of its month exactly when one of the three indicators
    signals a photo; a message with [photo: true] and no [text] adds one
    and leaves the keyword and the emoji counts of the month as they
    were. *)
Theorem photoCount_step {R : Runtime} (ms : jsobj MonthStat.t) (m : Message.t) :
  isMessage m = true ->
  let before := recordOr (monthKeyOf m) ms in
  exists after,
    get (monthKeyOf m) (processMessage ms m) = Some after
    /\ MonthStat.photoCount after
       = (MonthStat.photoCount before + if signalsPhoto m then 1 else 0)%N
    /\ (Message.photo m = JBool true ->
        Message.text m = JUndefined ->
        MonthStat.photoCount after = (MonthStat.photoCount before + 1)%N
        /\ MonthStat.keywords after = MonthStat.keywords before
        /\ MonthStat.emojis after = MonthStat.emojis before).
Proof.
  intros M before. exists (accumulate m before). split; [|split].
  - rewrite get_processMessage, M, eqb_refl. reflexivity.
  - rewrite accumulate_photoCount, isPhoto_signalsPhoto. reflexivity.
  - intros Hp Ht. unfold accumulate, isPhoto. rewrite Hp, Ht. simpl.
    repeat split.
Qed.

Lemma photoCount_step_witness :
  exists after,
    get (utf16 "2024-01") (@processMessage exampleRuntime [] photoMessage)
    = Some after
    /\ MonthStat.photoCount after = 1%N.
Proof.
  destruct (@photoCount_step exampleRuntime [] photoMessage)
    as (after & Hg & Hc & _); [reflexivity|].
  exists after. split; [exact Hg | exact Hc].
Defined.

(* ===================================================================== *)
(** * Two runs of the aggregation *)
(* ===================================================================== *)

Section TwoRuns.
Variables R1 R2 : Runtime.

Lemma monthKeyOf_ext m :
  agreeOn R1 R2 m -> @monthKeyOf R1 m = @monthKeyOf R2 m.
Proof. intros (H & _). unfold monthKeyOf. now rewrite H. Qed.

Lemma accumulate_ext m b :
  agreeOn R1 R2 m -> @accumulate R1 m b = @accumulate R2 m b.
Proof.
  intros (_ & Ht & He). unfold accumulate.
  destruct (truthy (Message.text m)); [|reflexivity].
  now rewrite He, Ht.
Qed.

Lemma processMessage_ext ms m :
  (isMessage m = true -> agreeOn R1 R2 m) ->
  @processMessage R1 ms m = @processMessage R2 ms m.
Proof.
  intros H. unfold processMessage. fold (isMessage m).
  destruct (isMessage m); simpl; [|reflexivity].
  specialize (H eq_refl). rewrite (monthKeyOf_ext m H).
  unfold update.
  destruct (match get (@monthKeyOf R2 m) ms with
            | Some _ => ms
            | None => set (@monthKeyOf R2 m) (newMonth (@monthKeyOf R2 m)) ms
            end) as [|] eqn:E; [reflexivity|].
  destruct (get (@monthKeyOf R2 m) (p :: j)); [|reflexivity].
  now rewrite (accumulate_ext m t H).
Qed.

Lemma firstLoop_ext messages :
  (forall m, In m messages -> isMessage m = true -> agreeOn R1 R2 m) ->
  @firstLoop R1 messages = @firstLoop R2 messages.
Proof.
  unfold firstLoop. generalize (@nil (jsstring * MonthStat.t)) as ms.
  induction messages as [|m messages IH]; simpl; intros ms H; [reflexivity|].
  rewrite processMessage_ext by (apply H; now left).
  apply IH. intros m' Hin. apply H. now right.
Qed.

Lemma analyzeChat_ext chatData :
  (forall m, In m (ChatData.messages chatData) ->
             isMessage m = true -> agreeOn R1 R2 m) ->
  @analyzeChat R1 chatData = @analyzeChat R2 chatData.
Proof. intros H. unfold analyzeChat. now rewrite (firstLoop_ext _ H). Qed.

End TwoRuns.

Lemma agreeOn_refl R m : agreeOn R R m.
Proof. repeat split. Qed.

(** C8.  Two runs of the aggregation on the same export give the same
    [ChatAnalysis], whatever else differs between them, provided the
    platform gives both the same dates, texts and emoji matches on the
    messages of the export; the result holds no time stamp. *)
Theorem analyzeChat_deterministic (R1 R2 : Runtime) (chatData : ChatData.t) :
  (forall m, In m (ChatData.messages chatData) ->
             isMessage m = true -> agreeOn R1 R2 m) ->
  @analyzeChat R1 chatData = @analyzeChat R2 chatData.
Proof. apply analyzeChat_ext. Qed.

Lemma analyzeChat_deterministic_witness :
  @analyzeChat exampleRuntime scenarioExport
  = @analyzeChat exampleRuntime scenarioExport.
Proof.
  apply (analyzeChat_deterministic exampleRuntime exampleRuntime scenarioExport).
  intros m _ _. apply agreeOn_refl.
Defined.

(* ===================================================================== *)
(** * Keyword matching *)
(* ===================================================================== *)

Lemma countFrom_skip pat text : forall n,
  countFrom pat n text = countFrom pat 0 (skipn n text).
Proof.
  induction text as [|c r IH]; intros [|k]; simpl; try reflexivity.
  apply IH.
Qed.

Lemma countMatches_nil pat : countMatches pat [] = 0%N.
Proof. reflexivity. Qed.

(** The scan, step by step: a match at the head counts one and the scan
    resumes after the matched span; otherwise it moves on by one unit. *)
Lemma countMatches_cons pat c r :
  pat <> [] ->
  countMatches pat (c :: r)
  = if matchAt pat (c :: r)
    then (1 + countMatches pat (skipn (length pat) (c :: r)))%N
    else countMatches pat r.
Proof.
  intros Hp. unfold countMatches. simpl countFrom.
  destruct (matchAt pat (c :: r)); [|reflexivity].
  rewrite countFrom_skip. destruct pat as [|p pat']; [congruence|].
  simpl. now rewrite Nat.sub_0_r.
Qed.

Lemma matchAt_canon : forall pat pat' t t',
  map Canonicalize pat = map Canonicalize pat' ->
  map Canonicalize t = map Canonicalize t' ->
  matchAt pat t = matchAt pat' t'.
Proof.
  induction pat as [|p pat IH]; intros [|p' pat'] t t' Hp Ht;
    try discriminate; [reflexivity|].
  destruct t as [|c t], t' as [|c' t']; try discriminate; [reflexivity|].
  simpl in *. injection Hp as Hp1 Hp2. injection Ht as Ht1 Ht2.
  now rewrite Hp1, Ht1, (IH pat' t t').
Qed.

Lemma countFrom_canon pat pat' :
  map Canonicalize pat = map Canonicalize pat' ->
  forall t t' n,
    map Canonicalize t = map Canonicalize t' ->
    countFrom pat n t = countFrom pat' n t'.
Proof.
  intros Hp. assert (length pat = length pat') as Hl.
  { rewrite <- (length_map Canonicalize pat), Hp. apply length_map. }
  induction t as [|c t IH]; intros [|c' t'] n Ht; try discriminate;
    [reflexivity|].
  simpl. destruct n as [|n].
  - rewrite (matchAt_canon pat pat' (c :: t) (c' :: t') Hp Ht).
    injection Ht as _ Ht.
    rewrite Hl, (IH t' (length pat' - 1)%nat Ht), (IH t' 0%nat Ht).
    reflexivity.
  - injection Ht as _ Ht. now apply IH.
Qed.

Lemma matchAt_self pat post : matchAt pat (pat ++ post) = true.
Proof.
  induction pat as [|p pat IH]; simpl; [reflexivity|].
  now rewrite N.eqb_refl.
Qed.

Lemma countMatches_occurrence pat pre post :
  pat <> [] -> (1 <= countMatches pat (pre ++ pat ++ post))%N.
Proof.
  intros Hp. induction pre as [|c pre IH].
  - destruct pat as [|p pat']; [congruence|].
    change ([] ++ (p :: pat') ++ post) with (p :: (pat' ++ post)).
    rewrite countMatches_cons by assumption.
    change (p :: (pat' ++ post)) with ((p :: pat') ++ post).
    rewrite matchAt_self. lia.
  - change ((c :: pre) ++ pat ++ post) with (c :: (pre ++ pat ++ post)).
    rewrite countMatches_cons by assumption.
    destruct (matchAt pat (c :: pre ++ pat ++ post)); [lia | assumption].
Qed.


Lemma keywords_canon kw :
  In kw keywords ->
  kw <> []
  /\ map Canonicalize (toLowerCase kw) = map Canonicalize kw
  /\ map Canonicalize (map Canonicalize kw) = map Canonicalize kw.
Proof.
  unfold keywords.
  intros [<-|[<-|[<-|[<-|[]]]]];
    (split; [vm_compute; discriminate|]); split; vm_compute; reflexivity.
Qed.

Lemma scenario_agree {R : Runtime} :
  Date_new (JStr (utf16 "2024-01-05T10:00:00")) = LocalDate 2024 0 ->
  emojiRegex_matches (utf16 "Добраніч 😀 Добраніч") = [utf16 "😀"] ->
  forall m, In m (ChatData.messages scenarioExport) ->
            isMessage m = true -> agreeOn R exampleRuntime m.
Proof.
  intros Hdate Hemoji m Hin _.
  destruct Hin as [<-|[]].
  unfold agreeOn.
  cbn [Message.date Message.text plainMessage messageTextOf].
  rewrite Hdate, Hemoji.
  split; [|split]; vm_compute; reflexivity.
Qed.

Lemma scenario_example :
  exists b,
       Analysis.monthlyStats (@analyzeChat exampleRuntime scenarioExport) = [(utf16 "2024-01", b)]
       /\ MonthStat.messageCount b = 1%N
       /\ get (utf16 "добраніч") (MonthStat.keywords b) = Some 2%N
       /\ get (utf16 "😀") (MonthStat.emojis b) = Some 1%N.
Proof.
  eexists. split; [vm_compute; reflexivity|]. vm_compute. auto.
Qed.

(** C4.  For a platform on which the date of the scenario is read as
    January 2024 (local time) and the emoji pattern finds the one emoji of
    its text: matching ignores case, on the side of the text and of the
    keyword, an occurrence inside a longer text counts whatever surrounds
    it, the matches are counted left to right and do not overlap, and the
    scenario gives one bucket "2024-01" with [messageCount] 1, the keyword
    count 2 and the emoji count 1. *)
Theorem keyword_matching {R : Runtime} :
  Date_new (JStr (utf16 "2024-01-05T10:00:00")) = LocalDate 2024 0 ->
  emojiRegex_matches (utf16 "Добраніч 😀 Добраніч") = [utf16 "😀"] ->
  (forall pat pat' t t',
      map Canonicalize pat = map Canonicalize pat' ->
      map Canonicalize t = map Canonicalize t' ->
      countMatches pat t = countMatches pat' t')
  /\ (forall kw pre post, In kw keywords ->
        countMatches kw (pre ++ toLowerCase kw ++ post)
        = countMatches kw (pre ++ kw ++ post)
        /\ countMatches kw (pre ++ map Canonicalize kw ++ post)
           = countMatches kw (pre ++ kw ++ post))
  /\ (forall kw pre post, In kw keywords ->
        (1 <= countMatches kw (pre ++ kw ++ post))%N)
  /\ (forall pat, countMatches pat [] = 0%N)
  /\ (forall pat c r, pat <> [] ->
        countMatches pat (c :: r)
        = if matchAt pat (c :: r)
          then (1 + countMatches pat (skipn (length pat) (c :: r)))%N
          else countMatches pat r)
  /\ exists b,
       Analysis.monthlyStats (analyzeChat scenarioExport) = [(utf16 "2024-01", b)]
       /\ MonthStat.messageCount b = 1%N
       /\ get (utf16 "добраніч") (MonthStat.keywords b) = Some 2%N
       /\ get (utf16 "😀") (MonthStat.emojis b) = Some 1%N.
Proof.
  intros Hdate Hemoji.
  split; [|split; [|split; [|split; [|split]]]].
  - intros pat pat' t t' Hp Ht. unfold countMatches.
    now apply countFrom_canon.
  - intros kw pre post Hin.
    destruct (keywords_canon kw Hin) as (_ & Hl & Hu).
    split; unfold countMatches; apply countFrom_canon;
      [reflexivity | | reflexivity | ]; rewrite !map_app; congruence.
  - intros kw pre post Hin. apply countMatches_occurrence.
    now destruct (keywords_canon kw Hin).
  - apply countMatches_nil.
  - apply countMatches_cons.
  - rewrite (analyzeChat_ext R exampleRuntime scenarioExport).
    + apply scenario_example.
    + now apply scenario_agree.
Qed.

Lemma keyword_matching_witness :
  exists b,
    Analysis.monthlyStats (@analyzeChat exampleRuntime scenarioExport)
    = [(utf16 "2024-01", b)]
    /\ MonthStat.messageCount b = 1%N
    /\ get (utf16 "добраніч") (MonthStat.keywords b) = Some 2%N
    /\ get (utf16 "😀") (MonthStat.emojis b) = Some 1%N.
Proof.
  destruct (@keyword_matching exampleRuntime) as (_ & _ & _ & _ & _ & H);
    [vm_compute; reflexivity | vm_compute; reflexivity | exact H].
Defined.

(* ===================================================================== *)
(** * The ranking of the emoji *)
(* ===================================================================== *)

Section SortFacts.
Context {A : Type} (cmp : A -> A -> Z).

Lemma sortInsert_perm x l : Permutation (sortInsert cmp x l) (x :: l).
Proof.
  induction l as [|y r IH]; simpl; [reflexivity|].
  destruct (0 <? cmp x y)%Z; [|reflexivity].
  rewrite IH. apply perm_swap.
Qed.

Lemma sort_perm l : Permutation (sort cmp l) l.
Proof.
  induction l as [|x r IH]; simpl; [reflexivity|].
  rewrite sortInsert_perm. now constructor.
Qed.

End SortFacts.

Lemma byCount_pos x y :
  (0 <? byCount x y)%Z = true <-> (EmojiCount.count x < EmojiCount.count y)%N.
Proof. unfold byCount. rewrite Z.ltb_lt. lia. Qed.

Lemma sortInsert_sorted x l :
  StronglySorted descending l -> StronglySorted descending (sortInsert byCount x l).
Proof.
  induction l as [|y r IH]; simpl; intros S.
  - repeat constructor.
  - inversion S as [|? ? S' F]; subst.
    destruct (0 <? byCount x y)%Z eqn:E.
    + constructor; [now apply IH|].
      apply (Permutation_Forall (Permutation_sym (sortInsert_perm byCount x r))).
      constructor; [|assumption].
      apply byCount_pos in E. unfold descending. lia.
    + assert (EmojiCount.count y <= EmojiCount.count x)%N as Hxy.
      { destruct (N.lt_ge_cases (EmojiCount.count x) (EmojiCount.count y))
          as [H|H]; [|assumption].
        apply byCount_pos in H. congruence. }
      constructor; [assumption|].
      constructor; [exact Hxy|].
      eapply Forall_impl; [|exact F].
      intros z Hz. unfold descending in *. lia.
Qed.

Lemma sort_sorted l : StronglySorted descending (sort byCount l).
Proof.
  induction l as [|x r IH]; simpl; [constructor | now apply sortInsert_sorted].
Qed.

(** Stability: among the elements of one count, the sort keeps the order
    of its input. *)
Lemma sortInsert_stable c x l :
  filter (hasCount c) (sortInsert byCount x l) = filter (hasCount c) (x :: l).
Proof.
  induction l as [|y r IH]; [reflexivity|].
  simpl sortInsert. destruct (0 <? byCount x y)%Z eqn:E; [|reflexivity].
  apply byCount_pos in E.
  simpl filter in *. rewrite IH. unfold hasCount.
  destruct (EmojiCount.count x =? c)%N eqn:Ex; [|reflexivity].
  apply N.eqb_eq in Ex.
  assert ((EmojiCount.count y =? c)%N = false) as -> by (apply N.eqb_neq; lia).
  reflexivity.
Qed.

Lemma sort_stable c l :
  filter (hasCount c) (sort byCount l) = filter (hasCount c) l.
Proof.
  induction l as [|x r IH]; [reflexivity|].
  simpl sort. rewrite sortInsert_stable. simpl. now rewrite IH.
Qed.

Lemma StronglySorted_firstn {A : Type} (Rel : A -> A -> Prop) n : forall l,
  StronglySorted Rel l -> StronglySorted Rel (firstn n l).
Proof.
  induction n as [|n IH]; intros l S; [constructor|].
  destruct l as [|x l]; [constructor|].
  inversion S as [|? ? S' F]; subst. simpl. constructor; [now apply IH|].
  apply Forall_forall. intros y Hy.
  rewrite Forall_forall in F. apply F.
  rewrite <- (firstn_skipn n l). apply in_or_app. now left.
Qed.

Lemma emojiArray_eq tbl :
  emojiArray tbl = sort byCount (map toEmojiCount (entries tbl)).
Proof.
  unfold emojiArray. f_equal. apply map_ext. now intros [? ?].
Qed.

(** The ranking of a table: at most four entries, as many as the table
    has when it has fewer, in descending order of count, taken from the
    front of the sorted table, and for each count in the order of the
    table. *)
Lemma top4_spec tbl :
  (length (top4 tbl) <= 4)%nat
  /\ length (top4 tbl) = Nat.min 4 (length tbl)
  /\ StronglySorted descending (top4 tbl)
  /\ (exists rest,
        Permutation (top4 tbl ++ rest) (map toEmojiCount (entries tbl))
        /\ forall a b, In a (top4 tbl) -> In b rest -> descending a b)
  /\ (forall c, exists rest,
        filter (hasCount c) (map toEmojiCount (entries tbl))
        = filter (hasCount c) (top4 tbl) ++ rest).
Proof.
  unfold top4. rewrite emojiArray_eq.
  set (l := map toEmojiCount (entries tbl)).
  assert (length (sort byCount l) = length tbl) as Hlen.
  { rewrite (Permutation_length (sort_perm byCount l)).
    unfold l, entries. apply length_map. }
  split; [|split; [|split; [|split]]].
  - rewrite length_firstn. lia.
  - rewrite length_firstn, Hlen. reflexivity.
  - apply StronglySorted_firstn, sort_sorted.
  - exists (skipn 4 (sort byCount l)). split.
    + rewrite firstn_skipn. apply sort_perm.
    + pose proof (sort_sorted l) as S.
      rewrite <- (firstn_skipn 4 (sort byCount l)) in S.
      revert S. generalize (firstn 4 (sort byCount l)) as l1.
      induction l1 as [|x l1 IH]; intros S a b Ha Hb; [contradiction|].
      simpl in S. inversion S as [|? ? S' F]; subst.
      destruct Ha as [<-|Ha].
      * rewrite Forall_forall in F. apply F. apply in_or_app. now right.
      * now apply IH.
  - intros c. exists (filter (hasCount c) (skipn 4 (sort byCount l))).
    rewrite <- filter_app, firstn_skipn. symmetry. apply sort_stable.
Qed.

(** ** The order of the emoji table *)

Lemma notIn_false ks e : In e ks -> notIn ks e = false.
Proof.
  intros H. unfold notIn. apply negb_false_iff, existsb_exists.
  exists e. split; [assumption | apply eqb_refl].
Qed.

Lemma notIn_true ks e : ~ In e ks -> notIn ks e = true.
Proof.
  intros H. unfold notIn. apply negb_true_iff.
  destruct (existsb (eqb e) ks) eqn:E; [|reflexivity].
  apply existsb_exists in E. destruct E as (x & Hx & Ex).
  apply eqb_eq in Ex. subst. contradiction.
Qed.

Lemma filter_both {A : Type} (f g : A -> bool) l :
  filter f (filter g l) = filter (fun x => f x && g x) l.
Proof.
  induction l as [|x l IH]; simpl; [reflexivity|].
  destruct (g x); simpl; rewrite ?andb_true_r, ?andb_false_r;
    [destruct (f x)|]; now rewrite IH.
Qed.

Lemma keys_bumpAll es : forall tbl,
  (forall e, In e es -> arrayIndex e = None) ->
  keys (bumpAll es tbl) = keys tbl ++ filter (notIn (keys tbl)) (firstSeen es).
Proof.
  induction es as [|e es IH]; intros tbl H; simpl.
  - now rewrite app_nil_r.
  - change (bumpAll (e :: es) tbl)
      with (bumpAll es (set e (orZero (get e tbl) + 1)%N tbl)).
    rewrite IH by (intros; apply H; now right).
    rewrite filter_both.
    destruct (get e tbl) as [n|] eqn:G.
    + rewrite keys_set_old by congruence.
      assert (In e (keys tbl)) as Hin.
      { destruct (in_dec (list_eq_dec N.eq_dec) e (keys tbl)) as [i|n0];
          [assumption|].
        apply get_None_keys in n0. congruence. }
      rewrite (notIn_false _ _ Hin). f_equal. apply filter_ext_in.
      intros x _. destruct (notIn (keys tbl) x) eqn:N; [|reflexivity].
      simpl. symmetry. apply negb_true_iff, eqb_neq. intros ->.
      rewrite (notIn_false _ _ Hin) in N. discriminate.
    + rewrite set_new by (auto; apply H; now left).
      apply get_None_keys in G. rewrite (notIn_true _ _ G).
      unfold keys at 1 2. rewrite map_app. simpl. rewrite <- app_assoc. simpl.
      fold (keys tbl). do 2 f_equal. apply filter_ext. intros x.
      unfold notIn. rewrite existsb_app. simpl.
      rewrite orb_false_r, negb_orb. reflexivity.
Qed.

Lemma keys_bumpAll_empty es :
  (forall e, In e es -> arrayIndex e = None) ->
  keys (bumpAll es []) = firstSeen es.
Proof.
  intros H. rewrite keys_bumpAll by assumption. simpl.
  rewrite <- (filter_ext (fun _ => true)) by reflexivity.
  induction (firstSeen es) as [|x l IH]; simpl; [reflexivity | now f_equal].
Qed.

Lemma accumulateAll_emojis {R : Runtime} sel : forall b,
  MonthStat.emojis (accumulateAll sel b)
  = bumpAll (flat_map emojisOf sel) (MonthStat.emojis b).
Proof.
  unfold accumulateAll.
  induction sel as [|m sel IH]; intros b; simpl; [reflexivity|].
  now rewrite IH, accumulate_emojis, bumpAll_app.
Qed.

(** C3.  For every bucket of the output whose emoji are no array-index
    strings (no emoji is one): [emojisFormatted] lists the ranking
    [topEmojis], which holds at most four (emoji, count) pairs, four when
    the bucket has four distinct emoji or more, in descending order of
    count and taken from the front of the sorted table; the table lists
    the emoji in the order they were first seen in the pass, and for each
    count the ranked emoji are the first ones of the table with that
    count, in that order.  In the scenario the ranking is
    (🎉,3), (🔥,3), (😀,2), (🥳,1). *)
Theorem top_emojis {R : Runtime} (chatData : ChatData.t)
    (k : jsstring) (b : MonthStat.t) :
  In (k, b) (Analysis.monthlyStats (analyzeChat chatData)) ->
  let found := emojisFound k (ChatData.messages chatData) in
  (forall e, In e found -> arrayIndex e = None) ->
  let top := MonthStat.topEmojis b in
  MonthStat.emojisFormatted b = Some (map toNameValue top)
  /\ top = top4 (MonthStat.emojis b)
  /\ (length top <= 4)%nat
  /\ length top = Nat.min 4 (length (firstSeen found))
  /\ StronglySorted descending top
  /\ keys (MonthStat.emojis b) = firstSeen found
  /\ (exists rest,
        Permutation (top ++ rest)
                    (map toEmojiCount (entries (MonthStat.emojis b)))
        /\ forall x y, In x top -> In y rest -> descending x y)
  /\ (forall c, exists rest,
        filter (hasCount c) (map toEmojiCount (entries (MonthStat.emojis b)))
        = filter (hasCount c) top ++ rest)
  /\ keys (bumpAll partyFound []) = keys partyTable
  /\ bumpAll partyFound [] = partyTable
  /\ map toNameValue (top4 partyTable)
     = map (fun kv => {| NameValue.name := utf16 (fst kv);
                         NameValue.value := snd kv |})
           [("🎉", 3); ("🔥", 3); ("😀", 2); ("🥳", 1)]%string%N.
Proof.
  intros Hin found Hidx top.
  destruct (In_analyzeChat chatData k b Hin) as (sel & Hsel & Hb).
  assert (MonthStat.emojis b = bumpAll found []) as He.
  { rewrite Hb. unfold found, emojisFound. rewrite <- Hsel.
    change (MonthStat.emojis (finalizeMonth (accumulateAll sel (newMonth k))))
      with (MonthStat.emojis (accumulateAll sel (newMonth k))).
    now rewrite accumulateAll_emojis. }
  assert (top = top4 (MonthStat.emojis b)) as Ht
    by (unfold top; rewrite Hb; reflexivity).
  assert (keys (MonthStat.emojis b) = firstSeen found) as Hk
    by (rewrite He; now apply keys_bumpAll_empty).
  destruct (top4_spec (MonthStat.emojis b)) as (L1 & L2 & S & Pm & St).
  rewrite <- Ht in L1, L2, S, Pm, St.
  split; [unfold top; rewrite Hb; reflexivity|].
  split; [exact Ht|]. split; [exact L1|].
  split.
  { rewrite L2. f_equal. rewrite <- Hk. unfold keys. now rewrite length_map. }
  split; [exact S|]. split; [exact Hk|]. split; [exact Pm|].
  split; [exact St|].
  split; [vm_compute; reflexivity|].
  split; vm_compute; reflexivity.
Qed.

Lemma top_emojis_witness :
  MonthStat.emojisFormatted scenarioBucket
  = Some (map toNameValue (MonthStat.topEmojis scenarioBucket))
  /\ MonthStat.topEmojis scenarioBucket
     = [{| EmojiCount.emoji := utf16 "😀"; EmojiCount.count := 1 |}].
Proof.
  split; [|reflexivity].
  refine (proj1 (@top_emojis exampleRuntime scenarioExport (utf16 "2024-01")
                             scenarioBucket _ _)).
  - vm_compute. left. reflexivity.
  - intros e He. vm_compute in He. destruct He as [<-|[]]. reflexivity.
Defined.

(* ===================================================================== *)
(** * The statistics queries *)
(* ===================================================================== *)

Module ServerFacts.
Import Server.

Lemma testYear_spec year : testYear year = true <-> fourDigits year.
Proof.
  unfold testYear, fourDigits. split.
  - destruct year as [|a [|b [|c [|d [|e r]]]]]; try discriminate.
    rewrite !andb_true_iff. intros [[[Ha Hb] Hc] Hd].
    split; [reflexivity | repeat constructor; assumption].
  - intros [Hl Hf].
    destruct year as [|a [|b [|c [|d [|e r]]]]]; try discriminate.
    inversion Hf as [|? ? Ha Hf1]; subst.
    inversion Hf1 as [|? ? Hb Hf2]; subst.
    inversion Hf2 as [|? ? Hc Hf3]; subst.
    inversion Hf3 as [|? ? Hd _]; subst.
    now rewrite Ha, Hb, Hc, Hd.
Qed.

Lemma testMonthKey_spec monthKey :
  testMonthKey monthKey = true <-> yearAndMonth monthKey.
Proof.
  unfold testMonthKey, yearAndMonth, fourDigits. split.
  - destruct monthKey as [|a [|b [|c [|d [|h [|e [|f [|g r]]]]]]]];
      try discriminate.
    rewrite !andb_true_iff.
    intros [[[[[[Ha Hb] Hc] Hd] Hh] He] Hf].
    apply N.eqb_eq in Hh. subst h.
    exists [a; b; c; d], [e; f].
    repeat split; repeat constructor; assumption.
  - intros (y & mo & -> & [Hly Hy] & Hlm & Hm).
    destruct y as [|a [|b [|c [|d [|x r]]]]]; try discriminate.
    destruct mo as [|e [|f [|x r]]]; try discriminate.
    inversion Hy as [|? ? Ha Hy1]; subst.
    inversion Hy1 as [|? ? Hb Hy2]; subst.
    inversion Hy2 as [|? ? Hc Hy3]; subst.
    inversion Hy3 as [|? ? Hd _]; subst.
    inversion Hm as [|? ? He Hm1]; subst.
    inversion Hm1 as [|? ? Hf _]; subst.
    simpl. now rewrite Ha, Hb, Hc, Hd, He, Hf.
Qed.

Lemma find_none_iff {A : Type} (f : A -> bool) l :
  find f l = None <-> forall x, In x l -> f x = false.
Proof.
  split; [apply find_none|].
  induction l as [|x l IH]; simpl; intros H; [reflexivity|].
  rewrite (H x) by now left. apply IH. intros y Hy. apply H. now right.
Qed.

End ServerFacts.

(** C7, as amended.  The year query answers [InvalidFormat] on every
    input that is not four digits and the month query on every input that
    is not four digits, a hyphen and two digits, whatever is stored; on a
    well-formed input both answer [NotFound] when no analysis is stored,
    and the month query also when no bucket has the requested key.  The
    year query with a stored analysis succeeds, with the list of the
    buckets of the year, which is empty when no bucket matches. *)
Theorem queries_errors {R : Runtime} :
  (forall year db, ~ fourDigits year ->
      Server.InvalidFormat (Server.getYear year db))
  /\ (forall monthKey db, ~ yearAndMonth monthKey ->
      Server.InvalidFormat (Server.getMonthKey monthKey db))
  /\ (forall year, fourDigits year ->
      Server.NotFound (Server.getYear year (Server.Resolved None)))
  /\ (forall monthKey, yearAndMonth monthKey ->
      Server.NotFound (Server.getMonthKey monthKey (Server.Resolved None)))
  /\ (forall monthKey analysis, yearAndMonth monthKey ->
      (forall stat, In stat (Server.ChatAnalysis.monthlyStats analysis) ->
                    Server.MonthlyStat.month stat <> monthKey) ->
      Server.NotFound (Server.getMonthKey monthKey
                         (Server.Resolved (Some analysis))))
  /\ (forall year analysis, fourDigits year ->
      exists monthlyData,
        Server.getYear year (Server.Resolved (Some analysis))
        = {| Server.status := 200; Server.json := Server.YearBody monthlyData |}
        /\ Permutation
             monthlyData
             (map (fun stat => (Server.MonthlyStat.month stat,
                                Server.MonthlyStat.messageCount stat))
                  (filter (fun stat =>
                             Server.startsWith (Server.MonthlyStat.month stat)
                                               (year ++ utf16 "-"))
                          (Server.ChatAnalysis.monthlyStats analysis)))
        /\ ((forall stat,
               In stat (Server.ChatAnalysis.monthlyStats analysis) ->
               Server.startsWith (Server.MonthlyStat.month stat)
                                 (year ++ utf16 "-") = false) ->
            monthlyData = [])).
Proof.
  split; [|split; [|split; [|split; [|split]]]].
  - intros year db H. unfold Server.InvalidFormat, Server.getYear.
    destruct (Server.testYear year) eqn:E; [|reflexivity].
    apply ServerFacts.testYear_spec in E. contradiction.
  - intros monthKey db H. unfold Server.InvalidFormat, Server.getMonthKey.
    destruct (Server.testMonthKey monthKey) eqn:E; [|reflexivity].
    apply ServerFacts.testMonthKey_spec in E. contradiction.
  - intros year H. apply ServerFacts.testYear_spec in H.
    unfold Server.NotFound, Server.getYear. now rewrite H.
  - intros monthKey H. apply ServerFacts.testMonthKey_spec in H.
    unfold Server.NotFound, Server.getMonthKey. now rewrite H.
  - intros monthKey analysis H Hno. apply ServerFacts.testMonthKey_spec in H.
    unfold Server.NotFound, Server.getMonthKey. rewrite H. simpl.
    assert (find (fun stat => eqb (Server.MonthlyStat.month stat) monthKey)
                 (Server.ChatAnalysis.monthlyStats analysis) = None) as ->.
    { apply ServerFacts.find_none_iff. intros stat Hin.
      apply eqb_neq. now apply Hno. }
    reflexivity.
  - intros year analysis H. apply ServerFacts.testYear_spec in H.
    unfold Server.getYear. rewrite H. simpl.
    eexists. split; [reflexivity|]. split; [apply sort_perm|].
    intros Hno.
    assert (filter (fun stat =>
                      Server.startsWith (Server.MonthlyStat.month stat)
                                        (year ++ utf16 "-"))
                   (Server.ChatAnalysis.monthlyStats analysis) = []) as ->.
    { induction (Server.ChatAnalysis.monthlyStats analysis) as [|s l IH];
        [reflexivity|].
      simpl. rewrite (Hno s) by now left.
      apply IH. intros stat Hin. apply Hno. now right. }
    reflexivity.
Qed.

(** C7 as stated fails for the year query: with an analysis stored and no
    bucket of the requested year, it answers with success and an empty
    list, not with [NotFound]. *)
Lemma year_query_counterexample :
  Server.testYear (utf16 "1999") = true
  /\ (forall stat,
        In stat (Server.ChatAnalysis.monthlyStats storedAnalysis) ->
        Server.startsWith (Server.MonthlyStat.month stat) (utf16 "1999-") = false)
  /\ @Server.getYear exampleRuntime (utf16 "1999")
       (Server.Resolved (Some storedAnalysis))
     = {| Server.status := 200; Server.json := Server.YearBody [] |}
  /\ ~ Server.NotFound
         (@Server.getYear exampleRuntime (utf16 "1999")
            (Server.Resolved (Some storedAnalysis))).
Proof.
  split; [reflexivity|]. split.
  - intros stat [<-|[]]. reflexivity.
  - split; [reflexivity|]. unfold Server.NotFound. vm_compute. discriminate.
Qed.

(* ===================================================================== *)
(** * Further properties of the aggregation *)
(* ===================================================================== *)

Section Buckets.
Context {R : Runtime}.

Lemma fold_processMessage_filter messages : forall ms,
  fold_left processMessage (filter isMessage messages) ms
  = fold_left processMessage messages ms.
Proof.
  induction messages as [|m messages IH]; intros ms; simpl; [reflexivity|].
  destruct (isMessage m) eqn:E; simpl.
  - apply IH.
  - rewrite (processMessage_skip ms m E). apply IH.
Qed.

(** X1.  The entries whose type is not "message" leave no trace in the
    buckets: the monthly statistics of an export are those of the export
    with these entries removed. *)
Theorem other_types_ignored (chatData : ChatData.t) :
  Analysis.monthlyStats (analyzeChat chatData)
  = Analysis.monthlyStats
      (analyzeChat
         (withMessages chatData (filter isMessage (ChatData.messages chatData)))).
Proof.
  unfold analyzeChat, firstLoop. simpl.
  now rewrite fold_processMessage_filter.
Qed.

(** X2.  A month key has a bucket exactly when the export has a message
    of type "message" with that key, and the bucket's [messageCount] is
    the number of these messages. *)
Theorem bucket_messageCount (chatData : ChatData.t) (k : jsstring) :
  let sel := messagesOf k (ChatData.messages chatData) in
  match get k (Analysis.monthlyStats (analyzeChat chatData)) with
  | None => sel = []
  | Some b => sel <> [] /\ MonthStat.messageCount b = N.of_nat (length sel)
  end.
Proof.
  cbv zeta. rewrite get_analyzeChat.
  destruct (messagesOf k (ChatData.messages chatData)) as [|m0 sel] eqn:S;
    [reflexivity|].
  split; [discriminate|].
  rewrite finalizeMonth_messageCount, accumulateAll_messageCount.
  simpl MonthStat.messageCount. lia.
Qed.

(** X3.  The bucket of a month depends on the messages of that month
    only, in their order: two exports with the same messages of type
    "message" under a key have the same bucket under it, whatever else
    they hold. *)
Theorem bucket_of_its_messages (c1 c2 : ChatData.t) (k : jsstring) :
  messagesOf k (ChatData.messages c1) = messagesOf k (ChatData.messages c2) ->
  get k (Analysis.monthlyStats (analyzeChat c1))
  = get k (Analysis.monthlyStats (analyzeChat c2)).
Proof. intros H. now rewrite !get_analyzeChat, H. Qed.

(** X4.  The [month] field of every bucket is the key it is stored
    under. *)
Theorem bucket_month_is_key (chatData : ChatData.t) (k : jsstring)
    (b : MonthStat.t) :
  In (k, b) (Analysis.monthlyStats (analyzeChat chatData)) ->
  MonthStat.month b = k.
Proof.
  intros Hin. destruct (In_analyzeChat chatData k b Hin) as (sel & _ & ->).
  rewrite finalizeMonth_month. apply accumulateAll_month.
Qed.

Lemma keys_processMessage_old ms m :
  isMessage m = true -> get (monthKeyOf m) ms <> None ->
  keys (processMessage ms m) = keys ms.
Proof.
  intros M G. unfold processMessage. unfold isMessage in M. rewrite M. simpl.
  rewrite keys_update. destruct (get (monthKeyOf m) ms); congruence.
Qed.

Lemma keys_processMessage_new ms m :
  isMessage m = true -> get (monthKeyOf m) ms = None ->
  keys (processMessage ms m) = keys ms ++ [monthKeyOf m].
Proof.
  intros M G. unfold processMessage. unfold isMessage in M. rewrite M. simpl.
  rewrite keys_update, G.
  rewrite set_new by (auto using monthKeyOf_not_index).
  unfold keys. now rewrite map_app.
Qed.

Lemma keys_fold_processMessage messages : forall ms,
  keys (fold_left processMessage messages ms)
  = keys ms
    ++ filter (notIn (keys ms))
              (firstSeen (map monthKeyOf (filter isMessage messages))).
Proof.
  induction messages as [|m messages IH]; intros ms; simpl.
  - now rewrite app_nil_r.
  - destruct (isMessage m) eqn:M.
    2:{ rewrite (processMessage_skip ms m M). apply IH. }
    rewrite IH. simpl. rewrite filter_both.
    destruct (get (monthKeyOf m) ms) as [b|] eqn:G.
    + rewrite keys_processMessage_old by congruence.
      assert (In (monthKeyOf m) (keys ms)) as Hin.
      { destruct (in_dec (list_eq_dec N.eq_dec) (monthKeyOf m) (keys ms))
          as [i|n]; [assumption|].
        apply get_None_keys in n. congruence. }
      rewrite (notIn_false _ _ Hin). f_equal. apply filter_ext_in.
      intros x _. destruct (notIn (keys ms) x) eqn:N; [|reflexivity].
      simpl. symmetry. apply negb_true_iff, eqb_neq. intros ->.
      rewrite (notIn_false _ _ Hin) in N. discriminate.
    + rewrite keys_processMessage_new by assumption.
      apply get_None_keys in G. rewrite (notIn_true _ _ G).
      rewrite <- app_assoc. simpl. do 2 f_equal. apply filter_ext. intros x.
      unfold notIn. rewrite existsb_app. simpl.
      rewrite orb_false_r, negb_orb. reflexivity.
Qed.

Lemma filter_all_true {A : Type} (l : list A) : filter (fun _ => true) l = l.
Proof. induction l as [|x l IH]; simpl; [reflexivity | now f_equal]. Qed.

(** X5.  The buckets come in the order in which their month keys first
    occur among the messages of type "message", one bucket per key. *)
Theorem bucket_order (chatData : ChatData.t) :
  keys (Analysis.monthlyStats (analyzeChat chatData))
  = firstSeen (map monthKeyOf (filter isMessage (ChatData.messages chatData)))
  /\ NoDup (keys (Analysis.monthlyStats (analyzeChat chatData))).
Proof.
  split.
  - unfold analyzeChat. simpl. rewrite keys_secondLoop. unfold firstLoop.
    rewrite keys_fold_processMessage. simpl.
    rewrite <- (filter_ext (fun _ => true)) by reflexivity.
    apply filter_all_true.
  - unfold analyzeChat. simpl. rewrite keys_secondLoop.
    apply NoDup_keys_firstLoop.
Qed.

(** X6.  The output has no bucket exactly when the export has no entry
    of type "message"; an empty export gives no bucket. *)
Theorem no_bucket_iff (chatData : ChatData.t) :
  Analysis.monthlyStats (analyzeChat chatData) = []
  <-> filter isMessage (ChatData.messages chatData) = [].
Proof.
  destruct (bucket_order chatData) as [K _].
  split; intros H.
  - rewrite H in K.
    destruct (filter isMessage (ChatData.messages chatData)); [reflexivity|].
    simpl in K. discriminate K.
  - rewrite H in K.
    destruct (Analysis.monthlyStats (analyzeChat chatData)); [reflexivity|].
    simpl in K. discriminate K.
Qed.

End Buckets.

Lemma bucket_of_its_messages_witness :
  get (utf16 "2024-01")
      (Analysis.monthlyStats (@analyzeChat exampleRuntime scenarioExport))
  = get (utf16 "2024-01")
        (Analysis.monthlyStats (@analyzeChat exampleRuntime otherExport)).
Proof.
  apply (@bucket_of_its_messages exampleRuntime scenarioExport otherExport).
  vm_compute. reflexivity.
Defined.

Lemma bucket_month_is_key_witness :
  MonthStat.month scenarioBucket = utf16 "2024-01".
Proof.
  apply (@bucket_month_is_key exampleRuntime scenarioExport).
  vm_compute. left. reflexivity.
Defined.
